(** * augmentations.py: augmentation presets and crop builders

    A shallow embedding of [src/augmentations.py].  The module only
    assembles configuration objects of two external libraries: every
    call [A.Cls(args, kw=...)] of albumentations is taken to create a
    fresh object that records its class and the operands it was given,
    in the order they were given (what the constructors do with them is
    theirs), and [cv2.BORDER_CONSTANT] and [cv2.BORDER_REFLECT101] are
    two constants of OpenCV.  Python objects live in a store (a list of
    objects, a location being an index), threaded through every call;
    exceptions are results.  Numbers are Python's: unbounded integers
    ([Z]) and IEEE-754 binary64 floats (the Standard Library's
    [spec_float] at precision 53), with [int * float], [min] and [int]
    as CPython computes them. *)

From Stdlib Require Import ZArith QArith Qround Qminmax String List Lia.
From Stdlib Require Import Floats.SpecFloat.
From stdpp Require Import base option list.

Local Open Scope string_scope.
Local Open Scope list_scope.
Local Open Scope Z_scope.

(** ** Python numbers *)

Module PyNum.

(** binary64: 53 bits of mantissa, exponents below 1024 *)
Definition prec : Z := 53.
Definition emax : Z := 1024.

Abbreviation float := spec_float.

Definition fmul : float -> float -> float := SFmul prec emax.
Definition fdiv : float -> float -> float := SFdiv prec emax.

(** The nearest float to an integer (ties to even); an infinity when
    the integer is out of range. *)
Definition round_int (z : Z) : float := binary_normalize prec emax z 0 false.

(** A decimal literal [digits / 10^scale] of the source text, rounded
    to the nearest float as Python's parser does.  Both operands of the
    division are exact for the literals of this module, and the
    division rounds correctly. *)
Definition literal (digits : Z) (scale : nat) : float :=
  fdiv (round_int digits) (round_int (10 ^ Z.of_nat scale)).

Definition is_finite (x : float) : bool :=
  match x with
  | S754_zero _ | S754_finite _ _ _ => true
  | _ => false
  end.

(** [0 < x], the infinity included *)
Definition is_positive (x : float) : bool :=
  SFltb (S754_zero false) x.

Definition wf (x : float) : bool := valid_binary prec emax x.

(** The rational [(-1)^s * m * 2^e] a finite float stands for (0 for
    the others). *)
Definition to_Q (x : float) : Q :=
  match x with
  | S754_finite s m (Zneg p) => Qmake (cond_Zopp s (Zpos m)) (2 ^ p)
  | S754_finite s m e => inject_Z (cond_Zopp s (Zpos m) * 2 ^ e)
  | _ => 0%Q
  end.

End PyNum.
Import PyNum.

Inductive exn := OverflowError | ValueError | TypeError.

Inductive result (A : Type) :=
| Ok (a : A)
| Raise (e : exn).
Arguments Ok {A} a.
Arguments Raise {A} e.

#[global] Instance result_ret : MRet result := fun A a => Ok a.
#[global] Instance result_bind : MBind result :=
  fun A B f r => match r with Ok a => f a | Raise e => Raise e end.
#[global] Instance result_fmap : FMap result :=
  fun A B f r => match r with Ok a => Ok (f a) | Raise e => Raise e end.

(** A number as [min] may return it: an [int] or a [float]. *)
Inductive number :=
| NInt (z : Z)
| NFloat (x : float).

(** [float(z)] as [int * float] performs it: OverflowError when the
    integer is too large for a float. *)
Definition py_float_of_int (z : Z) : result float :=
  match round_int z with
  | S754_infinity _ => Raise OverflowError
  | x => Ok x
  end.

(** [z * x] for an [int] z and a [float] x. *)
Definition py_int_mul_float (z : Z) (x : float) : result float :=
  zx ← py_float_of_int z; mret (fmul zx x).

(** [x < z] for a [float] x and an [int] z; Python compares the two
    exactly, and every comparison with a NaN is false. *)
Definition py_float_lt_int (x : float) (z : Z) : bool :=
  match x with
  | S754_nan => false
  | S754_infinity s => s
  | S754_zero _ => 0 <? z
  | S754_finite s m e =>
      match e with
      | Zneg p => cond_Zopp s (Zpos m) <? z * 2 ^ Zpos p
      | _ => cond_Zopp s (Zpos m) * 2 ^ e <? z
      end
  end.

(** [min(z, x)]: the second argument only when it is smaller. *)
Definition py_min_int_float (z : Z) (x : float) : number :=
  if py_float_lt_int x z then NFloat x else NInt z.

(** [int(v)]: truncation toward zero. *)
Definition py_int (v : number) : result Z :=
  match v with
  | NInt z => Ok z
  | NFloat S754_nan => Raise ValueError
  | NFloat (S754_infinity _) => Raise OverflowError
  | NFloat (S754_zero _) => Ok 0
  | NFloat (S754_finite s m e) => Ok (cond_Zopp s (Z.shiftl (Zpos m) e))
  end.

(** The float literals of the source. *)
Definition f0_01 : float := literal 1 2.
Definition f0_05 : float := literal 5 2.
Definition f0_1 : float := literal 1 1.
Definition f0_2 : float := literal 2 1.
Definition f0_3 : float := literal 3 1.
Definition f0_4 : float := literal 4 1.
Definition f0_5 : float := literal 5 1.
Definition f0_75 : float := literal 75 2.
Definition f1_25 : float := literal 125 2.

(** ** Objects and the store *)

Definition loc := nat.

(** The two border modes the module reads from [cv2]. *)
Inductive cv2_const := BORDER_CONSTANT | BORDER_REFLECT101.

Inductive pyval :=
| PInt (z : Z)
| PFloat (x : float)
| PBool (b : bool)
| PCv2 (c : cv2_const)
| PRef (l : loc).

(** The albumentations classes the module instantiates. *)
Inductive cls :=
| OneOrOther | RandomSizedCrop | CropNonEmptyMaskIfExists | Compose | Resize
| RandomRotate90 | Transpose | Downscale | RandomBrightnessContrast
| ShiftScaleRotate | HorizontalFlip | OneOf | GaussianBlur | NoOp
| CoarseDropout | GaussNoise | CLAHE | HueSaturationValue | RGBShift
| RandomGamma | RandomFog | ElasticTransform | FancyPCA | RandomGridShuffle.

Inductive pyobj :=
| OTuple (items : list pyval)
| OList (items : list pyval)
| OInst (c : cls) (args : list pyval) (kwargs : list (string * pyval)).

Abbreviation heap := (list pyobj).

Definition load (h : heap) (l : loc) : option pyobj := h !! l.

(** ** Computations: a store threaded through, exceptions propagated *)

Definition Py (A : Type) : Type := heap -> result A * heap.

#[global] Instance Py_ret : MRet Py := fun A a h => (Ok a, h).
#[global] Instance Py_bind : MBind Py :=
  fun A B f m h =>
    match m h with
    | (Ok a, h') => f a h'
    | (Raise e, h') => (Raise e, h')
    end.
#[global] Instance Py_fmap : FMap Py :=
  fun A B f m h =>
    match m h with
    | (Ok a, h') => (Ok (f a), h')
    | (Raise e, h') => (Raise e, h')
    end.

(** An expression without effect on the store. *)
Definition pure {A} (r : result A) : Py A := fun h => (r, h).

Definition lit (v : pyval) : Py pyval := mret v.

(** A new object, at the first free location. *)
Definition alloc (o : pyobj) : Py pyval :=
  fun h => (Ok (PRef (length h)), h ++ [o]).

(** Operands are evaluated from left to right. *)
Fixpoint eval_all {A} (ms : list (Py A)) : Py (list A) :=
  match ms with
  | [] => mret []
  | m :: ms' => a ← m; rest ← eval_all ms'; mret (a :: rest)
  end.

Definition eval_kw {A} (kws : list (string * Py A)) : Py (list (string * A)) :=
  eval_all (map (fun kw => pair kw.1 <$> kw.2) kws).

(** [(e1, ..., en)] and [[e1, ..., en]] *)
Definition py_tuple (es : list (Py pyval)) : Py pyval :=
  items ← eval_all es; alloc (OTuple items).

Definition py_list (es : list (Py pyval)) : Py pyval :=
  items ← eval_all es; alloc (OList items).

Module A.
(** [A.c(args, kw1=e1, ...)]: positional operands, then keyword
    operands, then the instance. *)
Definition call (c : cls) (args : list (Py pyval))
    (kwargs : list (string * Py pyval)) : Py pyval :=
  a ← eval_all args; k ← eval_kw kwargs; alloc (OInst c a k).
End A.

(** ** The module *)

Definition crop_transform (image_size : Z * Z) (min_scale max_scale : float)
    (input_size : Z) : Py pyval :=
  A.call OneOrOther
    [ A.call RandomSizedCrop
        [ py_tuple
            [ PInt <$> pure (x ← py_int_mul_float image_size.1 min_scale;
                             py_int (NFloat x));
              PInt <$> pure (x ← py_int_mul_float image_size.1 max_scale;
                             py_int (py_min_int_float input_size x)) ];
          lit (PInt image_size.1);
          lit (PInt image_size.2) ] [];
      A.call CropNonEmptyMaskIfExists
        [ lit (PInt image_size.1); lit (PInt image_size.2) ] [] ] [].

Definition crop_transform_xview2 (image_size : Z * Z)
    (min_scale max_scale : float) (input_size : Z) : Py pyval :=
  A.call OneOrOther
    [ A.call RandomSizedCrop
        [ py_tuple
            [ PInt <$> pure (x ← py_int_mul_float image_size.1 min_scale;
                             py_int (NFloat x));
              PInt <$> pure (x ← py_int_mul_float image_size.1 max_scale;
                             py_int (py_min_int_float input_size x)) ];
          lit (PInt image_size.1);
          lit (PInt image_size.2) ] [];
      A.call Compose
        [ py_list
            [ A.call Resize
                [ lit (PInt (input_size * 2)); lit (PInt (input_size * 2)) ] [];
              A.call CropNonEmptyMaskIfExists
                [ lit (PInt image_size.1); lit (PInt image_size.2) ] [] ] ] [] ] [].

(** The defaults of the two signatures. *)
Definition crop_transform_defaults (image_size : Z * Z) : Py pyval :=
  crop_transform image_size f0_75 f1_25 5000.

Definition crop_transform_xview2_defaults (image_size : Z * Z) : Py pyval :=
  crop_transform_xview2 image_size f0_4 f0_75 1024.

Definition safe_augmentations : Py pyval :=
  py_list
    [ A.call RandomRotate90 [] [("p", lit (PInt 1))];
      A.call Transpose [] [("p", lit (PFloat f0_5))] ].

Definition light_augmentations (mask_dropout : bool) : Py pyval :=
  py_list
    [ A.call Downscale [lit (PFloat f0_3); lit (PFloat f0_3)]
        [("always_apply", lit (PBool true))];
      A.call RandomRotate90 [] [("p", lit (PInt 1))];
      A.call Transpose [] [("p", lit (PFloat f0_5))];
      A.call RandomBrightnessContrast [] [];
      A.call ShiftScaleRotate []
        [ ("scale_limit", lit (PFloat f0_05));
          ("rotate_limit", lit (PInt 15));
          ("border_mode", lit (PCv2 BORDER_CONSTANT)) ] ].

Definition medium_augmentations (for_3ch_img mask_dropout : bool) : Py pyval :=
  py_list
    [ A.call HorizontalFlip [] [];
      A.call ShiftScaleRotate []
        [ ("scale_limit", lit (PFloat f0_1));
          ("rotate_limit", lit (PInt 15));
          ("border_mode", lit (PCv2 BORDER_CONSTANT)) ];
      A.call OneOf [ py_list [ A.call GaussianBlur [] []; A.call NoOp [] [] ] ] [];
      A.call OneOf [ py_list [ A.call CoarseDropout [] []; A.call NoOp [] [] ] ] [];
      A.call GaussNoise [] [];
      (if for_3ch_img then
         A.call OneOf
           [ py_list
               [ A.call RandomBrightnessContrast []
                   [("brightness_by_max", lit (PBool true))];
                 A.call CLAHE [] [];
                 A.call HueSaturationValue [] [];
                 A.call RGBShift [] [];
                 A.call RandomGamma [] [] ] ] []
       else
         A.call OneOf
           [ py_list
               [ A.call RandomBrightnessContrast []
                   [("brightness_by_max", lit (PBool true))];
                 A.call RandomGamma [] [] ] ] []);
      (if for_3ch_img then
         A.call RandomFog []
           [ ("fog_coef_lower", lit (PFloat f0_01));
             ("fog_coef_upper", lit (PFloat f0_3));
             ("p", lit (PFloat f0_1)) ]
       else A.call NoOp [] []) ].

Definition hard_augmentations (for_3ch_img mask_dropout : bool) : Py pyval :=
  py_list
    [ A.call RandomRotate90 [] [("p", lit (PInt 1))];
      A.call Transpose [] [("p", lit (PFloat f0_5))];
      A.call OneOf
        [ py_list
            [ A.call ShiftScaleRotate []
                [ ("scale_limit", lit (PFloat f0_2));
                  ("rotate_limit", lit (PInt 45));
                  ("border_mode", lit (PCv2 BORDER_REFLECT101)) ];
              A.call ElasticTransform []
                [ ("border_mode", lit (PCv2 BORDER_REFLECT101));
                  ("alpha_affine", lit (PInt 5)) ] ] ] [];
      (if for_3ch_img then
         A.call OneOf
           [ py_list
               [ A.call RandomBrightnessContrast []
                   [("brightness_by_max", lit (PBool true))];
                 A.call CLAHE [] [];
                 A.call FancyPCA [] [];
                 A.call HueSaturationValue [] [];
                 A.call RGBShift [] [];
                 A.call RandomGamma [] [] ] ] []
       else
         A.call OneOf
           [ py_list
               [ A.call RandomBrightnessContrast []
                   [("brightness_by_max", lit (PBool true))];
                 A.call RandomGamma [] [] ] ] []);
      A.call OneOf
        [ py_list [ A.call RandomGridShuffle [] []; A.call CoarseDropout [] [] ] ] [];
      A.call OneOf
        [ py_list [ A.call GaussianBlur [] []; A.call GaussNoise [] [] ] ] [];
      (if for_3ch_img then
         A.call RandomFog []
           [ ("fog_coef_lower", lit (PFloat f0_01));
             ("fog_coef_upper", lit (PFloat f0_3));
             ("p", lit (PFloat f0_1)) ]
       else A.call NoOp [] []) ].

Definition one_augmentations (mask_dropout : bool) : Py pyval :=
  py_list
    [ A.call RandomRotate90 [] [("p", lit (PInt 1))];
      A.call Transpose [] [("p", lit (PFloat f0_5))];
      A.call RandomBrightnessContrast []
        [("brightness_by_max", lit (PBool true))];
      A.call CLAHE [] [];
      A.call FancyPCA [] [];
      A.call HueSaturationValue [] [];
      A.call RGBShift [] [];
      A.call RandomGamma [] [] ].

(** [mask_dropout] is left to its default, [True], at every call. *)
Definition get_augmentations (augmentation : string) (for_3ch_img : bool)
  : Py pyval :=
  if String.eqb augmentation "hard" then hard_augmentations for_3ch_img true
  else if String.eqb augmentation "medium" then
    medium_augmentations for_3ch_img true
  else if String.eqb augmentation "light" then light_augmentations true
  else if String.eqb augmentation "safe" then safe_augmentations
  else if String.eqb augmentation "one" then one_augmentations true
  else py_list [].

(** ** What a caller can see of a result *)

(** The structure below a value: classes, arguments and numbers, with
    the locations forgotten. *)
#[warnings="-register-all"]
Inductive tree :=
| TInt (z : Z)
| TFloat (x : float)
| TBool (b : bool)
| TCv2 (c : cv2_const)
| TTuple (items : list tree)
| TList (items : list tree)
| TInst (c : cls) (args : list tree) (kwargs : list (string * tree)).

(** Each dereference spends one unit of [fuel]. *)
Fixpoint reify (fuel : nat) (h : heap) (v : pyval) : option tree :=
  match v with
  | PInt z => Some (TInt z)
  | PFloat x => Some (TFloat x)
  | PBool b => Some (TBool b)
  | PCv2 c => Some (TCv2 c)
  | PRef l =>
      match fuel with
      | O => None
      | S fuel' =>
          match load h l with
          | None => None
          | Some (OTuple items) => TTuple <$> mapM (reify fuel' h) items
          | Some (OList items) => TList <$> mapM (reify fuel' h) items
          | Some (OInst c args kwargs) =>
              args' ← mapM (reify fuel' h) args;
              kwargs' ← mapM (fun kw => pair kw.1 <$> reify fuel' h kw.2) kwargs;
              Some (TInst c args' kwargs')
          end
      end
  end.

(** A chain of references without a cycle visits each object at most
    once, so the size of the store is fuel enough. *)
Definition snapshot (h : heap) (v : pyval) : option tree :=
  reify (length h) h v.

(** Running a computation in a store and looking at what it returns. *)
Definition observe (m : Py pyval) (h : heap) : result (option tree) :=
  match m h with
  | (Ok v, h') => Ok (snapshot h' v)
  | (Raise e, _) => Raise e
  end.

(** Projections of an observed list. *)
Definition seq_length (r : result (option tree)) : option nat :=
  match r with
  | Ok (Some (TList items)) => Some (length items)
  | _ => None
  end.

Definition seq_item (i : nat) (r : result (option tree)) : option tree :=
  match r with
  | Ok (Some (TList items)) => items !! i
  | _ => None
  end.

Definition seq_last (r : result (option tree)) : option tree :=
  match r with
  | Ok (Some (TList items)) => last items
  | _ => None
  end.

(** The window a caller sees in the [RandomSizedCrop] of a crop. *)
Definition seen_window (r : result (option tree)) : result (option tree) :=
  (fun t =>
     match t with
     | Some (TInst OneOrOther (TInst RandomSizedCrop (window :: _) _ :: _) _) =>
         Some window
     | _ => None
     end) <$> r.

(** ** The vocabulary of the specification *)

(** Not a NaN, and of sign [s]. *)
Definition has_sign (s : bool) (x : float) : Prop :=
  match x with
  | S754_nan => False
  | S754_zero s' | S754_infinity s' | S754_finite s' _ _ => s' = s
  end.

(** Of sign [s], and neither a NaN nor a zero. *)
Definition has_sign_nonzero (s : bool) (x : float) : Prop :=
  match x with
  | S754_finite s' _ _ | S754_infinity s' => s' = s
  | _ => False
  end.

(** A positive scale: a float above zero. *)
Definition scale (x : float) : bool := wf x && is_positive x.

(** The largest finite float, 1.7976931348623157e308. *)
Definition float_max : float := S754_finite false 9007199254740991 971.

(** [floor (min (c, x))] for an integer [c], the infinity being above
    every integer. *)
Definition floor_min (c : Z) (x : float) : Z :=
  match x with
  | S754_infinity false => c
  | _ => Qfloor (Qmin (inject_Z c) (to_Q x))
  end.

(** A magnitude [m * 2^e] that is not below the smallest float. *)
Definition above_emin (m e : Z) : Prop :=
  0 < m /\ SpecFloat.emin prec emax < Z.log2 m + 1 + e.

(** The two bounds of the crop window, as both crop builders compute
    them in the first operand of [RandomSizedCrop]. *)
Definition crop_window (height : Z) (min_scale max_scale : float)
    (input_size : Z) : result (Z * Z) :=
  lo ← (x ← py_int_mul_float height min_scale; py_int (NFloat x));
  hi ← (x ← py_int_mul_float height max_scale;
        py_int (py_min_int_float input_size x));
  mret (lo, hi).

(** What [crop_transform] builds around a window. *)
Definition crop_tree (height width : Z) (window : Z * Z) : option tree :=
  Some (TInst OneOrOther
          [TInst RandomSizedCrop
             [TTuple [TInt window.1; TInt window.2]; TInt height; TInt width] [];
           TInst CropNonEmptyMaskIfExists [TInt height; TInt width] []] []).

(** What [crop_transform_xview2] builds around a window. *)
Definition crop_tree_xview2 (height width input_size : Z) (window : Z * Z)
  : option tree :=
  Some (TInst OneOrOther
          [TInst RandomSizedCrop
             [TTuple [TInt window.1; TInt window.2]; TInt height; TInt width] [];
           TInst Compose
             [TList
                [TInst Resize [TInt (input_size * 2); TInt (input_size * 2)] [];
                 TInst CropNonEmptyMaskIfExists [TInt height; TInt width] []]]
             []] []).

(** The public functions of the module, with their arguments. *)
Inductive builder_call :=
| CallCropTransform (image_size : Z * Z) (min_scale max_scale : float)
    (input_size : Z)
| CallCropTransformXview2 (image_size : Z * Z) (min_scale max_scale : float)
    (input_size : Z)
| CallSafe
| CallLight (mask_dropout : bool)
| CallMedium (for_3ch_img mask_dropout : bool)
| CallHard (for_3ch_img mask_dropout : bool)
| CallOne (mask_dropout : bool)
| CallGetAugmentations (augmentation : string) (for_3ch_img : bool).

Definition invoke (c : builder_call) : Py pyval :=
  match c with
  | CallCropTransform sz mn mx i => crop_transform sz mn mx i
  | CallCropTransformXview2 sz mn mx i => crop_transform_xview2 sz mn mx i
  | CallSafe => safe_augmentations
  | CallLight md => light_augmentations md
  | CallMedium b md => medium_augmentations b md
  | CallHard b md => hard_augmentations b md
  | CallOne md => one_augmentations md
  | CallGetAugmentations name b => get_augmentations name b
  end.

(** ** Relocation: building in a store that already holds objects *)

(** [shift n] moves every reference [n] locations up: what a value built
    in an empty store becomes when [n] objects were there before. *)
Class Shift (A : Type) := shift : nat -> A -> A.

#[global] Instance shift_val : Shift pyval :=
  fun n v => match v with PRef l => PRef (n + l)%nat | _ => v end.
#[global] Instance shift_list {A} `{Shift A} : Shift (list A) :=
  fun n => map (shift n).
#[global] Instance shift_kw {A} `{Shift A} : Shift (string * A) :=
  fun n kw => (kw.1, shift n kw.2).
#[global] Instance shift_obj : Shift pyobj :=
  fun n o =>
    match o with
    | OTuple items => OTuple (shift n items)
    | OList items => OList (shift n items)
    | OInst c args kwargs => OInst c (shift n args) (shift n kwargs)
    end.
#[global] Instance shift_result {A} `{Shift A} : Shift (result A) :=
  fun n r => shift n <$> r.

(** A computation is relocatable when running it above [h] is running
    it without [h], shifted by the size of [h]: it reads nothing of the
    store, changes none of its objects and only appends new ones. *)
Definition relocatable {A} `{Shift A} (m : Py A) : Prop :=
  forall h s : heap,
    m (h ++ shift (length h) s) =
    (shift (length h) (m s).1, h ++ shift (length h) (m s).2).

Definition relocatable_fun {A B} `{Shift A} `{Shift B} (f : A -> Py B) : Prop :=
  forall (h s : heap) (a : A),
    f (shift (length h) a) (h ++ shift (length h) s) =
    (shift (length h) (f a s).1, h ++ shift (length h) (f a s).2).

(** A value without references. *)
Definition closed {A} `{Shift A} (a : A) : Prop := forall n, shift n a = a.

(** ** The vocabulary of the further properties *)

(** The second branch of [crop_transform_xview2], around that of
    [crop_transform]. *)
Definition resize_before_mask_crop (input_size : Z) (t : option tree)
  : option tree :=
  match t with
  | Some (TInst OneOrOther [first; second] []) =>
      Some (TInst OneOrOther
              [first;
               TInst Compose
                 [TList
                    [TInst Resize
                       [TInt (input_size * 2); TInt (input_size * 2)] [];
                     second]] []] [])
  | _ => None
  end.

(** The locations met when reading the structure below a value, in the
    order they are met (a shared object is met more than once). *)
Fixpoint reach (fuel : nat) (h : heap) (v : pyval) : list loc :=
  match v with
  | PRef l =>
      l :: match fuel with
           | O => []
           | S fuel' =>
               match load h l with
               | None => []
               | Some (OTuple items) | Some (OList items) =>
                   concat (map (reach fuel' h) items)
               | Some (OInst _ args kwargs) =>
                   concat (map (reach fuel' h) args) ++
                   concat (map (fun kw => reach fuel' h kw.2) kwargs)
               end
           end
  | _ => []
  end.

Definition reachable (h : heap) (v : pyval) : list loc :=
  reach (length h) h v.

(** What a run from the empty store must look like for its result to
    own its objects: on an exception nothing was allocated; otherwise
    the structure of the result can be read, no object is met twice and
    every object met is in the store. *)
Definition owned (run : result pyval * heap) : bool :=
  match run with
  | (Ok v, s) =>
      match s with [] => false | _ => true end &&
      match snapshot s v with Some _ => true | None => false end &&
      bool_decide (NoDup (reachable s v)) &&
      bool_decide (Forall (fun l => (l < length s)%nat) (reachable s v))
  | (Raise _, s) => match s with [] => true | _ => false end
  end.

(** The classes instantiated in a structure, in the order they are
    met. *)
Fixpoint classes (t : tree) : list cls :=
  match t with
  | TInst c args kwargs =>
      c :: concat (map classes args) ++
           concat (map (fun kw => let '(_, v) := kw in classes v) kwargs)
  | TTuple items | TList items => concat (map classes items)
  | _ => []
  end.

(** The classes that [medium_augmentations] and [hard_augmentations]
    instantiate under [for_3ch_img] only. *)
Definition three_channel_only (c : cls) : bool :=
  match c with
  | CLAHE | FancyPCA | HueSaturationValue | RGBShift | RandomFog => true
  | _ => false
  end.

Definition is_instance (t : tree) : bool :=
  match t with TInst _ _ _ => true | _ => false end.

Definition seq_items (r : result (option tree)) : option (list tree) :=
  match r with
  | Ok (Some (TList items)) => Some items
  | _ => None
  end.

(** The two D4 steps, [RandomRotate90(p=1)] and [Transpose(p=0.5)]. *)
Definition d4_steps : list tree :=
  [TInst RandomRotate90 [] [("p", TInt 1)];
   TInst Transpose [] [("p", TFloat f0_5)]].

(** * Properties *)

(** ** Relocatable computations *)

Lemma shift_Ok {A} `{Shift A} n (a : A) : shift n (Ok a) = Ok (shift n a).
Proof. reflexivity. Qed.

Lemma shift_Raise {A} `{Shift A} n e : shift n (@Raise A e) = Raise e.
Proof. reflexivity. Qed.

Section Relocation.
Context {A B : Type} `{Shift A} `{Shift B}.

Lemma relocatable_ret (a : A) : closed a -> relocatable (mret a).
Proof.
  intros Ha h s. cbv [mret Py_ret fst snd]. now rewrite shift_Ok, Ha.
Qed.

Lemma relocatable_bind (m : Py A) (f : A -> Py B) :
  relocatable m -> relocatable_fun f -> relocatable (m ≫= f).
Proof.
  intros Hm Hf h s. cbv [mbind Py_bind]. rewrite Hm.
  destruct (m s) as [[a|e] s']; cbn [fst snd].
  - rewrite shift_Ok. apply Hf.
  - now rewrite !shift_Raise.
Qed.

Lemma relocatable_fmap (g : A -> B) (m : Py A) :
  relocatable m -> (forall n a, shift n (g a) = g (shift n a)) ->
  relocatable (g <$> m).
Proof.
  intros Hm Hg h s. cbv [fmap Py_fmap]. rewrite Hm.
  destruct (m s) as [[a|e] s']; cbn [fst snd].
  - now rewrite !shift_Ok, Hg.
  - now rewrite !shift_Raise.
Qed.
End Relocation.

Lemma relocatable_fun_alloc : relocatable_fun alloc.
Proof.
  intros h s o. unfold alloc. cbn [fst snd]. rewrite shift_Ok. f_equal.
  - cbv [shift shift_val shift_list]. now rewrite length_app, length_map.
  - cbv [shift shift_list]. now rewrite map_app, app_assoc.
Qed.

Lemma relocatable_eval_all {A} `{Shift A} (ms : list (Py A)) :
  Forall relocatable ms -> relocatable (eval_all ms).
Proof.
  induction 1 as [|m ms Hm _ IH]; cbn [eval_all].
  - now apply relocatable_ret.
  - apply relocatable_bind; [exact Hm|]. intros h s a.
    cbv [mbind Py_bind mret Py_ret]. rewrite IH.
    now destruct (eval_all ms s) as [[rest|e] s'].
Qed.

Lemma relocatable_eval_kw {A} `{Shift A} (kws : list (string * Py A)) :
  Forall (fun kw => relocatable kw.2) kws -> relocatable (eval_kw kws).
Proof.
  intros Hk. apply relocatable_eval_all, Forall_map.
  eapply Forall_impl; [exact Hk|]. intros [k m] Hm.
  now apply relocatable_fmap.
Qed.

Lemma relocatable_py_list (es : list (Py pyval)) :
  Forall relocatable es -> relocatable (py_list es).
Proof.
  intros He. apply relocatable_bind; [now apply relocatable_eval_all|].
  intros h s items. apply (relocatable_fun_alloc h s (OList items)).
Qed.

Lemma relocatable_py_tuple (es : list (Py pyval)) :
  Forall relocatable es -> relocatable (py_tuple es).
Proof.
  intros He. apply relocatable_bind; [now apply relocatable_eval_all|].
  intros h s items. apply (relocatable_fun_alloc h s (OTuple items)).
Qed.

Lemma relocatable_call (c : cls) (args : list (Py pyval))
    (kwargs : list (string * Py pyval)) :
  Forall relocatable args -> Forall (fun kw => relocatable kw.2) kwargs ->
  relocatable (A.call c args kwargs).
Proof.
  intros Ha Hk. apply relocatable_bind; [now apply relocatable_eval_all|].
  intros h s a. cbv [mbind Py_bind].
  rewrite (relocatable_eval_kw kwargs Hk).
  destruct (eval_kw kwargs s) as [[k|e] s']; cbn [fst snd].
  - rewrite shift_Ok. apply (relocatable_fun_alloc h s' (OInst c a k)).
  - now rewrite !shift_Raise.
Qed.

Lemma relocatable_lit (v : pyval) : closed v -> relocatable (lit v).
Proof. apply relocatable_ret. Qed.

Lemma relocatable_int (r : result Z) : relocatable (PInt <$> pure r).
Proof.
  intros h s. cbv [fmap Py_fmap pure fst snd]. now destruct r.
Qed.

Ltac relocatable_step :=
  lazymatch goal with
  | |- relocatable (py_list _) => apply relocatable_py_list
  | |- relocatable (py_tuple _) => apply relocatable_py_tuple
  | |- relocatable (A.call _ _ _) => apply relocatable_call
  | |- relocatable (PInt <$> pure _) => apply relocatable_int
  | |- relocatable (lit _) => apply relocatable_lit; intros ?; reflexivity
  | |- relocatable (if ?b then _ else _) => destruct b
  | |- Forall _ (_ :: _) => constructor; cbn [fst snd]
  | |- Forall _ [] => constructor
  end.

Ltac solve_relocatable := repeat relocatable_step.


Lemma relocatable_crop_transform sz mn mx c :
  relocatable (crop_transform sz mn mx c).
Proof. unfold crop_transform. solve_relocatable. Qed.

Lemma relocatable_crop_transform_xview2 sz mn mx c :
  relocatable (crop_transform_xview2 sz mn mx c).
Proof. unfold crop_transform_xview2. solve_relocatable. Qed.

Lemma relocatable_safe : relocatable safe_augmentations.
Proof. unfold safe_augmentations. solve_relocatable. Qed.

Lemma relocatable_light md : relocatable (light_augmentations md).
Proof. unfold light_augmentations. solve_relocatable. Qed.

Lemma relocatable_medium b md : relocatable (medium_augmentations b md).
Proof. unfold medium_augmentations. solve_relocatable. Qed.

Lemma relocatable_hard b md : relocatable (hard_augmentations b md).
Proof. unfold hard_augmentations. solve_relocatable. Qed.

Lemma relocatable_one md : relocatable (one_augmentations md).
Proof. unfold one_augmentations. solve_relocatable. Qed.

Lemma relocatable_get_augmentations name b :
  relocatable (get_augmentations name b).
Proof.
  unfold get_augmentations.
  repeat match goal with |- context [String.eqb ?x ?y] =>
    destruct (String.eqb x y) end;
  auto using relocatable_safe, relocatable_light, relocatable_medium,
    relocatable_hard, relocatable_one.
  solve_relocatable.
Qed.

(** ** Reading back a relocated result *)

Lemma load_shifted (h s : heap) (l : loc) :
  load (h ++ shift (length h) s) (length h + l)%nat
  = shift (length h) <$> load s l.
Proof.
  unfold load. rewrite lookup_app_r by lia.
  replace (length h + l - length h)%nat with l by lia.
  apply list_lookup_fmap.
Qed.

Lemma mapM_shifted {X Y} (g : X -> X) (f f' : X -> option Y) (l : list X) :
  (forall x, f (g x) = f' x) -> mapM f (map g l) = mapM f' l.
Proof.
  intros Hf. induction l as [|x l IH]; [reflexivity|].
  cbn. now rewrite Hf, IH.
Qed.

(** The structure below a value does not change with its position. *)
Lemma reify_shifted (fuel : nat) (h s : heap) (v : pyval) :
  reify fuel (h ++ shift (length h) s) (shift (length h) v) = reify fuel s v.
Proof.
  revert v. induction fuel as [|fuel IH]; intros [z|x|b|c|l]; try reflexivity.
  cbn [shift shift_val reify]. rewrite load_shifted.
  destruct (load s l) as [[items|items|c args kwargs]|];
    cbn [fmap option_fmap option_map shift shift_obj]; [| | |reflexivity].
  - change (shift (length h) items) with (map (shift (length h)) items).
    now rewrite (mapM_shifted _ _ (reify fuel s)) by apply IH.
  - change (shift (length h) items) with (map (shift (length h)) items).
    now rewrite (mapM_shifted _ _ (reify fuel s)) by apply IH.
  - change (shift (length h) args) with (map (shift (length h)) args).
    change (shift (length h) kwargs) with (map (shift (length h)) kwargs).
    rewrite (mapM_shifted _ _ (reify fuel s)) by apply IH.
    now rewrite (mapM_shifted _ _ (fun kw => pair kw.1 <$> reify fuel s kw.2))
      by (intros [k v]; cbn [shift shift_kw fst snd]; now rewrite IH).
Qed.

Lemma mapM_mono {X Y} (f f' : X -> option Y) (l : list X) (ys : list Y) :
  (forall x y, f x = Some y -> f' x = Some y) ->
  mapM f l = Some ys -> mapM f' l = Some ys.
Proof.
  intros Hf. revert ys. induction l as [|x l IH]; intros ys; [trivial|].
  cbn. destruct (f x) as [y|] eqn:Hx; [|discriminate].
  rewrite (Hf _ _ Hx). cbn.
  destruct (mapM f l) as [ys'|]; [|discriminate].
  now rewrite (IH _ eq_refl).
Qed.

(** More fuel reads the same structure. *)
Lemma reify_mono (fuel fuel' : nat) (h : heap) (v : pyval) (t : tree) :
  (fuel <= fuel')%nat -> reify fuel h v = Some t -> reify fuel' h v = Some t.
Proof.
  revert fuel' v t. induction fuel as [|fuel IH]; intros fuel' v t Hle.
  - destruct v, fuel'; cbn; congruence.
  - destruct fuel' as [|fuel']; [lia|]. destruct v; try (cbn; congruence).
    cbn [reify].
    assert (Hm : forall x y, reify fuel h x = Some y -> reify fuel' h x = Some y)
      by (intros; eapply IH; [lia | eassumption]).
    destruct (load h l) as [[items|items|c args kwargs]|]; [| | |congruence].
    + destruct (mapM (reify fuel h) items) as [ts|] eqn:E; [|discriminate].
      now rewrite (mapM_mono _ _ _ _ Hm E).
    + destruct (mapM (reify fuel h) items) as [ts|] eqn:E; [|discriminate].
      now rewrite (mapM_mono _ _ _ _ Hm E).
    + destruct (mapM (reify fuel h) args) as [ts|] eqn:E; [|discriminate].
      rewrite (mapM_mono _ _ _ _ Hm E). cbn.
      destruct (mapM _ kwargs) as [ks|] eqn:E'; [|discriminate].
      assert (Hk : forall (kw : string * pyval) y,
                 pair kw.1 <$> reify fuel h kw.2 = Some y ->
                 pair kw.1 <$> reify fuel' h kw.2 = Some y).
      { intros [k x] y. cbn.
        destruct (reify fuel h x) as [y'|] eqn:Ex; [|discriminate].
        now rewrite (Hm _ _ Ex). }
      now rewrite (mapM_mono _ _ _ _ Hk E').
Qed.

(** What a relocatable computation returns looks the same from every
    store, and the store it was run in is still there, unchanged, below
    the new objects. *)
Theorem observe_relocated (m : Py pyval) (h : heap) (t : tree) :
  relocatable m -> observe m [] = Ok (Some t) -> observe m h = Ok (Some t).
Proof.
  intros Hm. unfold observe. specialize (Hm h []).
  cbn [shift shift_list map] in Hm. rewrite app_nil_r in Hm. rewrite Hm.
  destruct (m []) as [[v|e] s]; cbn [fst snd]; [|discriminate].
  rewrite shift_Ok. intros [= Ht]. f_equal.
  unfold snapshot in *. eapply reify_mono; [|rewrite reify_shifted; exact Ht].
  rewrite length_app. unfold shift at 1, shift_list. rewrite length_map. lia.
Qed.

Theorem observe_relocated_raise (m : Py pyval) (h : heap) (e : exn) :
  relocatable m -> observe m [] = Raise e -> observe m h = Raise e.
Proof.
  intros Hm. unfold observe. specialize (Hm h []).
  cbn [shift shift_list map] in Hm. rewrite app_nil_r in Hm. rewrite Hm.
  destruct (m []) as [[v|e'] s]; cbn [fst snd]; [discriminate|].
  now rewrite shift_Raise.
Qed.

Theorem store_preserved {A} `{Shift A} (m : Py A) (h : heap) :
  relocatable m -> exists news, (m h).2 = h ++ news.
Proof.
  intros Hm. specialize (Hm h []).
  cbn [shift shift_list map] in Hm. rewrite app_nil_r in Hm. rewrite Hm.
  now eexists.
Qed.

Create HintDb relocation.
#[global] Hint Resolve relocatable_crop_transform
  relocatable_crop_transform_xview2 relocatable_safe relocatable_light
  relocatable_medium relocatable_hard relocatable_one
  relocatable_get_augmentations : relocation.

(** Reduces what is seen from a store [h] to what is seen from the empty
    store, and computes that. *)
Ltac observe_from_empty :=
  erewrite observe_relocated;
  [ | solve [auto with relocation] | vm_compute; reflexivity ].

(** ** Rounding keeps the sign and, above the smallest float, makes no zero *)

Lemma digits2_pos_log2 (p : positive) :
  Zpos (digits2_pos p) = Z.log2 (Zpos p) + 1.
Proof.
  induction p as [p IH|p IH|]; cbn [digits2_pos]; [| |reflexivity];
    rewrite Pos2Z.inj_succ, IH.
  - rewrite (Pos2Z.inj_xI p), Z.log2_succ_double; lia.
  - rewrite (Pos2Z.inj_xO p), Z.log2_double; lia.
Qed.

Lemma Zdigits2_log2 (m : Z) : 0 < m -> Zdigits2 m = Z.log2 m + 1.
Proof.
  destruct m as [|p|p]; try lia. intros _. apply digits2_pos_log2.
Qed.

Lemma pow2_xO (p : positive) : 2 ^ Zpos p~0 = 2 ^ Zpos p * 2 ^ Zpos p.
Proof.
  rewrite (Pos2Z.inj_xO p). replace (2 * Zpos p) with (Zpos p + Zpos p) by lia.
  apply Z.pow_add_r; lia.
Qed.

Lemma pow2_xI (p : positive) : 2 ^ Zpos p~1 = 2 * (2 ^ Zpos p * 2 ^ Zpos p).
Proof.
  rewrite (Pos2Z.inj_xI p), Z.add_comm, Z.pow_add_r, Z.pow_1_r by lia.
  now rewrite <- pow2_xO.
Qed.

Section Rounding.
Local Open Scope Z_scope.

(** One step of [shr] halves the mantissa. *)
Lemma shr_1_div2 (r : shr_record) :
  0 <= shr_m r -> shr_m (shr_1 r) = shr_m r / 2.
Proof.
  destruct r as [[|[p|p|]|p] r s]; cbn [shr_m shr_1]; intros Hr;
    first [lia | rewrite <- Z.div2_div; reflexivity].
Qed.

Lemma shr_1_nonneg (r : shr_record) : 0 <= shr_m r -> 0 <= shr_m (shr_1 r).
Proof.
  intros Hr. rewrite shr_1_div2 by exact Hr. now apply Z.div_pos.
Qed.

Lemma iter_shr_1_div (p : positive) (r : shr_record) :
  0 <= shr_m r ->
  0 <= shr_m (SpecFloat.iter_pos shr_1 p r) /\
  shr_m (SpecFloat.iter_pos shr_1 p r) = shr_m r / 2 ^ Zpos p.
Proof.
  revert r. induction p as [p IH|p IH|]; intros r Hr; cbn [SpecFloat.iter_pos].
  - destruct (IH (shr_1 r) (shr_1_nonneg r Hr)) as [H1 E1].
    destruct (IH _ H1) as [H2 E2]. split; [exact H2|].
    rewrite E2, E1, shr_1_div2 by exact Hr.
    pose proof (Z.pow_pos_nonneg 2 (Zpos p)).
    rewrite !Z.div_div by lia. now rewrite pow2_xI.
  - destruct (IH r Hr) as [H1 E1]. destruct (IH _ H1) as [H2 E2].
    split; [exact H2|].
    pose proof (Z.pow_pos_nonneg 2 (Zpos p)).
    rewrite E2, E1, Z.div_div by lia. now rewrite pow2_xO.
  - split; [now apply shr_1_nonneg|]. rewrite shr_1_div2 by exact Hr.
    now rewrite Z.pow_1_r.
Qed.

Lemma shr_fexp_nonneg (m e : Z) (l : location) :
  0 <= m -> 0 <= shr_m (shr_fexp prec emax m e l).1.
Proof.
  intros Hm. unfold shr_fexp, shr.
  assert (Hr : 0 <= shr_m (shr_record_of_loc m l)) by now destruct l as [|[]].
  destruct (fexp prec emax (Zdigits2 m + e) - e); cbn [fst]; try exact Hr.
  now apply iter_shr_1_div.
Qed.

Lemma round_nearest_even_ge (m : Z) (l : location) :
  m <= round_nearest_even m l.
Proof.
  destruct l as [|[]]; cbn; try destruct (Z.even m); lia.
Qed.

(** Rounding a magnitude keeps the sign and makes no NaN. *)
Lemma binary_round_aux_sign (s : bool) (m e : Z) (l : location) :
  0 <= m -> has_sign s (binary_round_aux prec emax s m e l).
Proof.
  intros Hm. unfold binary_round_aux.
  pose proof (shr_fexp_nonneg m e l Hm) as H1.
  destruct (shr_fexp prec emax m e l) as [r1 e1]. cbn [fst] in H1.
  pose proof (round_nearest_even_ge (shr_m r1) (loc_of_shr_record r1)) as Hge.
  pose proof (shr_fexp_nonneg (round_nearest_even (shr_m r1)
                                 (loc_of_shr_record r1)) e1 loc_Exact) as H2.
  destruct (shr_fexp prec emax _ e1 loc_Exact) as [r2 e2]. cbn [fst] in H2.
  destruct (shr_m r2) as [|p|p]; [reflexivity| |lia].
  now destruct (e2 <=? emax - prec).
Qed.

(** The shift of [shr_fexp] leaves a magnitude above the smallest float
    above it. *)
Lemma shr_fexp_above (m e : Z) (l : location) :
  above_emin m e ->
  above_emin (shr_m (shr_fexp prec emax m e l).1) (shr_fexp prec emax m e l).2.
Proof.
  intros [Hm He]. unfold shr_fexp. rewrite (Zdigits2_log2 m Hm).
  assert (Hr : shr_m (shr_record_of_loc m l) = m) by now destruct l as [|[]].
  set (r := shr_record_of_loc m l) in *.
  unfold shr. destruct (fexp prec emax (Z.log2 m + 1 + e) - e) as [|k|k] eqn:Ek;
    cbn [fst snd]; rewrite ?Hr; try (split; assumption).
  destruct (iter_shr_1_div k r) as [_ ->]; [lia|]. rewrite Hr.
  assert (Hk : Zpos k <= Z.log2 m).
  { unfold fexp, SpecFloat.emin, prec, emax in *. lia. }
  assert (Hpow : 2 ^ Zpos k <= m).
  { transitivity (2 ^ Z.log2 m); [apply Z.pow_le_mono_r; lia|].
    apply Z.log2_spec, Hm. }
  assert (Hq : 0 < m / 2 ^ Zpos k) by (apply Z.div_str_pos; lia).
  split; [exact Hq|].
  pose proof (Z.log2_nonneg (m / 2 ^ Zpos k)).
  unfold fexp, SpecFloat.emin, prec, emax in *. lia.
Qed.

Lemma round_nearest_even_above (m e : Z) (l : location) :
  above_emin m e -> above_emin (round_nearest_even m l) e.
Proof.
  intros [Hm He]. pose proof (round_nearest_even_ge m l) as Hle.
  split; [lia|]. pose proof (Z.log2_le_mono _ _ Hle). lia.
Qed.

Lemma binary_round_aux_above (s : bool) (m e : Z) (l : location) :
  above_emin m e -> has_sign_nonzero s (binary_round_aux prec emax s m e l).
Proof.
  intros Hme. unfold binary_round_aux.
  pose proof (shr_fexp_above m e l Hme) as H1.
  destruct (shr_fexp prec emax m e l) as [r1 e1]. cbn [fst snd] in H1.
  pose proof (shr_fexp_above _ _ loc_Exact
                (round_nearest_even_above _ _ (loc_of_shr_record r1) H1)) as H2.
  destruct (shr_fexp prec emax _ e1 loc_Exact) as [r2 e2]. cbn [fst snd] in H2.
  destruct H2 as [H2 _].
  destruct (shr_m r2) as [|p|p]; try lia.
  now destruct (e2 <=? emax - prec).
Qed.

(** A positive integer rounds to a positive float or to the infinity. *)
Lemma round_int_above (z : Z) : 0 < z -> has_sign_nonzero false (round_int z).
Proof.
  intros Hz. destruct z as [|p|p]; try lia.
  unfold round_int, binary_normalize, binary_round.
  destruct (shl_align p 0 _) as [mz ez] eqn:E.
  apply binary_round_aux_above. split; [lia|].
  pose proof (Z.log2_nonneg (Zpos mz)).
  unfold shl_align in E.
  destruct (fexp prec emax (Z.pos (digits2_pos p) + 0) - 0) as [|k|k] eqn:Ek;
    injection E as <- <-;
    unfold fexp, SpecFloat.emin, prec, emax in *; lia.
Qed.

Lemma fmul_sign (x y : float) :
  has_sign_nonzero false x -> is_finite x = true -> has_sign_nonzero false y ->
  has_sign false (fmul x y).
Proof.
  destruct x as [sx|sx| |sx mx ex], y as [sy|sy| |sy my ey]; cbn;
    try discriminate; try tauto; intros -> _ ->; try reflexivity.
  now apply binary_round_aux_sign.
Qed.
End Rounding.

(** ** Numbers: [int * float], [int] and [min] *)

Lemma scale_inv (x : float) : scale x = true -> has_sign_nonzero false x.
Proof.
  unfold scale. rewrite andb_true_iff. intros [_ Hp].
  now destruct x as [s|[]| |[] m e].
Qed.

Lemma py_float_of_int_sign (z : Z) (zx : float) :
  0 < z -> py_float_of_int z = Ok zx ->
  has_sign_nonzero false zx /\ is_finite zx = true.
Proof.
  intros Hz. unfold py_float_of_int.
  pose proof (round_int_above z Hz) as Hr.
  destruct (round_int z) as [s|s| |s m e]; try discriminate;
    intros [= <-]; now split.
Qed.

(** The product of a positive integer and a positive scale is 0, a
    positive number or the infinity above; it is no NaN. *)
Lemma py_int_mul_float_sign (z : Z) (x p : float) :
  0 < z -> scale x = true -> py_int_mul_float z x = Ok p -> has_sign false p.
Proof.
  intros Hz Hs%scale_inv Hp. unfold py_int_mul_float in Hp.
  destruct (py_float_of_int z) as [zx|e] eqn:Ez; [|discriminate].
  apply py_float_of_int_sign in Ez as [Hzs Hzf]; [|exact Hz].
  injection Hp as <-. now apply fmul_sign.
Qed.

(** Both products are computed, or neither: the only failure is the
    conversion of the integer. *)
Lemma py_int_mul_float_both (z : Z) (x y p : float) :
  py_int_mul_float z x = Ok p -> exists q, py_int_mul_float z y = Ok q.
Proof.
  unfold py_int_mul_float. destruct (py_float_of_int z) as [zx|e]; cbn;
    [eauto | discriminate].
Qed.

Lemma pow_pos_Z (p : positive) : Zpos (2 ^ p) = 2 ^ Zpos p.
Proof. apply Pos2Z.inj_pow. Qed.

(** On a float that is not negative, [int] is the floor. *)
Lemma py_int_floor (x : float) :
  has_sign false x -> is_finite x = true ->
  py_int (NFloat x) = Ok (Qfloor (to_Q x)).
Proof.
  destruct x as [s|s| |s m e]; cbn [has_sign is_finite]; try discriminate.
  - reflexivity.
  - intros -> _. cbn [py_int to_Q cond_Zopp]. f_equal.
    destruct e as [|p|p]; cbn [Qfloor inject_Z].
    + now rewrite Z.div_1_r, Z.shiftl_0_r, Z.mul_1_r.
    + now rewrite Z.div_1_r, Z.shiftl_mul_pow2.
    + rewrite pow_pos_Z.
      change (Z.shiftl (Z.pos m) (Z.neg p)) with (Z.shiftr (Z.pos m) (Z.pos p)).
      now rewrite Z.shiftr_div_pow2.
Qed.

(** [min] and then [int], against the floor of the minimum. *)
Lemma py_int_min_floor (c : Z) (x : float) :
  has_sign false x -> py_int (py_min_int_float c x) = Ok (floor_min c x).
Proof.
  destruct x as [s|s| |s m e]; cbn [has_sign]; try tauto; intros ->.
  - unfold py_min_int_float, floor_min, Qmin, GenericMinMax.gmin, Qcompare.
    cbn [py_float_lt_int to_Q inject_Z Qnum Qden].
    rewrite Z.ltb_antisym, Z.leb_compare, !Z.mul_1_r.
    destruct (c ?= 0); cbn; now rewrite ?Z.div_1_r.
  - reflexivity.
  - unfold py_min_int_float, floor_min.
    assert (Hmin : Qmin (inject_Z c) (to_Q (S754_finite false m e)) =
                   if py_float_lt_int (S754_finite false m e) c
                   then to_Q (S754_finite false m e) else inject_Z c).
    { unfold Qmin, GenericMinMax.gmin, Qcompare.
      cbn [py_float_lt_int to_Q cond_Zopp].
      destruct e as [|p|p]; cbn [inject_Z Qnum Qden];
        rewrite ?pow_pos_Z, ?Z.mul_1_r, Z.ltb_antisym, Z.leb_compare;
        now destruct (_ ?= _). }
    rewrite Hmin.
    destruct (py_float_lt_int (S754_finite false m e) c).
    + now apply py_int_floor.
    + cbn. now rewrite Z.div_1_r.
Qed.

(** The literals are Python's: [0.1] is [0x1.999999999999ap-4], and so
    on. *)
Example literal_values :
  f0_1 = S754_finite false 7205759403792794 (-56) /\
  f0_4 = S754_finite false 7205759403792794 (-54) /\
  f0_5 = S754_finite false 4503599627370496 (-53) /\
  f0_75 = S754_finite false 6755399441055744 (-53) /\
  f1_25 = S754_finite false 5629499534213120 (-52).
Proof. repeat split; vm_compute; reflexivity. Qed.

(** [int] truncates: [int(-2.5)] is [-2], above the floor [-3]. *)
Example py_int_truncates :
  py_int (NFloat (S754_finite true 5 (-1))) = Ok (-2) /\
  Qfloor (to_Q (S754_finite true 5 (-1))) = -3.
Proof. split; reflexivity. Qed.

(** The products are those of floats: [10 * 0.7] is rounded up to
    [7.0], although the float [0.7] is below 7/10 and ten times it is
    below 7; and [100 * 0.29] is a float below 29. *)
Example py_products_round :
  (x ← py_int_mul_float 10 (literal 7 1); py_int (NFloat x)) = Ok 7 /\
  Qfloor (10 * to_Q (literal 7 1)) = 6 /\
  (x ← py_int_mul_float 100 (literal 29 2); py_int (NFloat x)) = Ok 28.
Proof. repeat split; vm_compute; reflexivity. Qed.

(** ** The presets *)

(** C1.  For each of the five preset names and either value of the
    channel flag, [get_augmentations] returns, from any store, a list of
    2 (safe), 5 (light), 7 (medium), 7 (hard) and 8 (one) elements; none
    of them is empty. *)
Theorem preset_lengths (for_3ch_img : bool) (h : heap) :
  seq_length (observe (get_augmentations "safe" for_3ch_img) h) = Some 2%nat /\
  seq_length (observe (get_augmentations "light" for_3ch_img) h) = Some 5%nat /\
  seq_length (observe (get_augmentations "medium" for_3ch_img) h) = Some 7%nat /\
  seq_length (observe (get_augmentations "hard" for_3ch_img) h) = Some 7%nat /\
  seq_length (observe (get_augmentations "one" for_3ch_img) h) = Some 8%nat.
Proof.
  destruct for_3ch_img; repeat split; observe_from_empty; reflexivity.
Qed.

Lemma get_augmentations_unknown (name : string) (b : bool) :
  ~ In name ["safe"; "light"; "medium"; "hard"; "one"] ->
  get_augmentations name b = py_list [].
Proof.
  intros Hn. unfold get_augmentations.
  repeat match goal with |- context [String.eqb name ?k] =>
    destruct (String.eqb_spec name k) as [->|_];
    [exfalso; apply Hn; cbn; tauto|] end.
  reflexivity.
Qed.

(** C2.  For a name that is none of the five presets, and either value
    of the channel flag, [get_augmentations] raises nothing and returns
    the empty list. *)
Theorem unknown_preset_empty (name : string) (for_3ch_img : bool) (h : heap) :
  ~ In name ["safe"; "light"; "medium"; "hard"; "one"] ->
  observe (get_augmentations name for_3ch_img) h = Ok (Some (TList [])).
Proof.
  intros Hn. rewrite (get_augmentations_unknown _ _ Hn).
  erewrite observe_relocated; [reflexivity | | vm_compute; reflexivity].
  apply relocatable_py_list. constructor.
Qed.

Lemma unknown_preset_empty_witness :
  ~ In "extreme" ["safe"; "light"; "medium"; "hard"; "one"] /\
  observe (get_augmentations "extreme" true) [OList []] = Ok (Some (TList [])).
Proof.
  assert (Hn : ~ In "extreme" ["safe"; "light"; "medium"; "hard"; "one"])
    by (cbn; intros [H|[H|[H|[H|[H|[]]]]]]; discriminate H).
  split; [exact Hn | exact (unknown_preset_empty "extreme" true [OList []] Hn)].
Defined.

(** C3.  In the list the medium builder returns, the sixth of the seven
    elements is a [OneOf] over a list of exactly two children
    (RandomBrightnessContrast, RandomGamma) without the channel flag,
    and of exactly five (RandomBrightnessContrast, CLAHE,
    HueSaturationValue, RGBShift, RandomGamma) with it. *)
Theorem medium_color_choice (mask_dropout : bool) (h : heap) :
  seq_length (observe (medium_augmentations false mask_dropout) h) = Some 7%nat /\
  seq_item 5 (observe (medium_augmentations false mask_dropout) h) =
    Some (TInst OneOf
            [TList
               [TInst RandomBrightnessContrast []
                  [("brightness_by_max", TBool true)];
                TInst RandomGamma [] []]] []) /\
  seq_length (observe (medium_augmentations true mask_dropout) h) = Some 7%nat /\
  seq_item 5 (observe (medium_augmentations true mask_dropout) h) =
    Some (TInst OneOf
            [TList
               [TInst RandomBrightnessContrast []
                  [("brightness_by_max", TBool true)];
                TInst CLAHE [] [];
                TInst HueSaturationValue [] [];
                TInst RGBShift [] [];
                TInst RandomGamma [] []]] []).
Proof.
  repeat split; observe_from_empty; reflexivity.
Qed.

(** C4.  The last element of the list the hard builder returns is a
    [NoOp] without the channel flag; with it, a [RandomFog] of
    probability 0.1 and fog coefficients from 0.01 to 0.3. *)
Theorem hard_weather_step (mask_dropout : bool) (h : heap) :
  seq_last (observe (hard_augmentations false mask_dropout) h) =
    Some (TInst NoOp [] []) /\
  seq_last (observe (hard_augmentations true mask_dropout) h) =
    Some (TInst RandomFog []
            [("fog_coef_lower", TFloat (literal 1 2));
             ("fog_coef_upper", TFloat (literal 3 1));
             ("p", TFloat (literal 1 1))]).
Proof.
  split; observe_from_empty; vm_compute; reflexivity.
Qed.

(** C7.  The [mask_dropout] flag of the light, medium, hard and one
    builders has no effect: with the other arguments equal, the two
    values of the flag give the same result and the same store. *)
Theorem mask_dropout_ignored (for_3ch_img md md' : bool) (h : heap) :
  light_augmentations md h = light_augmentations md' h /\
  medium_augmentations for_3ch_img md h = medium_augmentations for_3ch_img md' h /\
  hard_augmentations for_3ch_img md h = hard_augmentations for_3ch_img md' h /\
  one_augmentations md h = one_augmentations md' h.
Proof.
  repeat split.
Qed.

(** C9.  For the names safe, light and one the result of
    [get_augmentations] is the same for both values of [for_3ch_img];
    the flag goes to the hard and medium builders only. *)
Theorem channel_flag_ignored (b b' : bool) (h : heap) :
  get_augmentations "safe" b h = get_augmentations "safe" b' h /\
  get_augmentations "light" b h = get_augmentations "light" b' h /\
  get_augmentations "one" b h = get_augmentations "one" b' h /\
  get_augmentations "hard" b = hard_augmentations b true /\
  get_augmentations "medium" b = medium_augmentations b true.
Proof.
  repeat split.
Qed.

(** ** The crop builders *)

Lemma observe_crop_transform (h w : Z) (mn mx : float) (c : Z) (s : heap) :
  observe (crop_transform (h, w) mn mx c) s
  = crop_tree h w <$> crop_window h mn mx c.
Proof.
  unfold crop_window. cbn [fst snd].
  destruct (x ← py_int_mul_float h mn; py_int (NFloat x)) as [lo|e] eqn:Elo;
    [destruct (x ← py_int_mul_float h mx; py_int (py_min_int_float c x))
       as [hi|e] eqn:Ehi|].
  - apply observe_relocated; [auto with relocation|].
    unfold observe, crop_transform. cbn [fst snd]. rewrite Elo, Ehi. reflexivity.
  - apply observe_relocated_raise; [auto with relocation|].
    unfold observe, crop_transform. cbn [fst snd]. rewrite Elo, Ehi. reflexivity.
  - apply observe_relocated_raise; [auto with relocation|].
    unfold observe, crop_transform. cbn [fst snd]. rewrite Elo. reflexivity.
Qed.

Lemma observe_crop_transform_xview2 (h w : Z) (mn mx : float) (c : Z)
    (s : heap) :
  observe (crop_transform_xview2 (h, w) mn mx c) s
  = crop_tree_xview2 h w c <$> crop_window h mn mx c.
Proof.
  unfold crop_window. cbn [fst snd].
  destruct (x ← py_int_mul_float h mn; py_int (NFloat x)) as [lo|e] eqn:Elo;
    [destruct (x ← py_int_mul_float h mx; py_int (py_min_int_float c x))
       as [hi|e] eqn:Ehi|].
  - apply observe_relocated; [auto with relocation|].
    unfold observe, crop_transform_xview2. cbn [fst snd].
    rewrite Elo, Ehi. reflexivity.
  - apply observe_relocated_raise; [auto with relocation|].
    unfold observe, crop_transform_xview2. cbn [fst snd].
    rewrite Elo, Ehi. reflexivity.
  - apply observe_relocated_raise; [auto with relocation|].
    unfold observe, crop_transform_xview2. cbn [fst snd].
    rewrite Elo. reflexivity.
Qed.

(** C5 (amended).  For a positive target size, positive scales
    [min_scale <= max_scale] and a positive [input_size], whenever the
    float product [h * min_scale] is computed and finite,
    [crop_transform] builds its [RandomSizedCrop] with the window
    [(floor (h * min_scale), floor (min (input_size, h * max_scale)))],
    the products being those of binary64; and
    [crop_transform ((1000, 1000))] with the defaults has the window
    [(750, 1250)]. *)
Theorem crop_window_bounds (s : heap) :
  (forall (h w : Z) (min_scale max_scale : float) (input_size : Z)
          (pmin : float),
     0 < h -> 0 < w ->
     scale min_scale = true -> scale max_scale = true ->
     SFleb min_scale max_scale = true -> 0 < input_size ->
     py_int_mul_float h min_scale = Ok pmin -> is_finite pmin = true ->
     exists pmax,
       py_int_mul_float h max_scale = Ok pmax /\
       observe (crop_transform (h, w) min_scale max_scale input_size) s =
       Ok (crop_tree h w (Qfloor (to_Q pmin), floor_min input_size pmax))) /\
  observe (crop_transform_defaults (1000, 1000)) s =
  Ok (crop_tree 1000 1000 (750, 1250)).
Proof.
  split.
  - intros h w mn mx c pmin Hh _ Hmn Hmx _ _ Hpmin Hfin.
    destruct (py_int_mul_float_both h mn mx pmin Hpmin) as [pmax Hpmax].
    exists pmax. split; [exact Hpmax|].
    rewrite observe_crop_transform. unfold crop_window.
    rewrite Hpmin, Hpmax. cbn [mbind result_bind].
    rewrite (py_int_floor pmin)
      by eauto using py_int_mul_float_sign.
    rewrite (py_int_min_floor c pmax)
      by eauto using py_int_mul_float_sign.
    reflexivity.
  - unfold crop_transform_defaults. rewrite observe_crop_transform.
    vm_compute. reflexivity.
Qed.

Lemma crop_window_bounds_witness :
  observe (crop_transform (1000, 1000) f0_75 f1_25 5000) [] =
  Ok (crop_tree 1000 1000 (750, 1250)).
Proof.
  destruct (proj1 (crop_window_bounds [])
              1000 1000 f0_75 f1_25 5000
              (S754_finite false 6597069766656000 (-43)))
    as (pmax & Hpmax & Hobs);
    [lia | lia | reflexivity | reflexivity | reflexivity | lia
    | reflexivity | reflexivity |].
  rewrite Hobs. injection Hpmax as <-. vm_compute. reflexivity.
Defined.

(** C5 as stated fails where the product overflows: for the size
    (2, 2), both scales the largest float and the default input size,
    [2 * min_scale] is the infinity, [int] raises OverflowError on it
    and nothing is built. *)
Lemma crop_window_overflow :
  (0 < 2 /\ 0 < 2) /\
  (scale float_max = true /\ scale float_max = true) /\
  SFleb float_max float_max = true /\
  0 < 5000 /\
  py_int_mul_float 2 float_max = Ok (S754_infinity false) /\
  observe (crop_transform (2, 2) float_max float_max 5000) [] =
  Raise OverflowError.
Proof.
  repeat split; vm_compute; reflexivity.
Qed.

(** C6.  [crop_transform_xview2 ((512, 512))] with the defaults has the
    window [(204, 384)], 204 being [floor (512 * 0.4)] and 384 being
    [min (1024, floor (512 * 0.75))]; its second branch first resizes to
    2048 by 2048, twice the input size, and then crops. *)
Theorem xview2_crop_512 (s : heap) :
  observe (crop_transform_xview2_defaults (512, 512)) s =
  Ok (Some (TInst OneOrOther
              [TInst RandomSizedCrop
                 [TTuple [TInt 204; TInt 384]; TInt 512; TInt 512] [];
               TInst Compose
                 [TList
                    [TInst Resize [TInt 2048; TInt 2048] [];
                     TInst CropNonEmptyMaskIfExists [TInt 512; TInt 512] []]]
                 []] [])) /\
  Qfloor (to_Q (fmul (round_int 512) f0_4)) = 204 /\
  Z.min 1024 (Qfloor (to_Q (fmul (round_int 512) f0_75))) = 384 /\
  2 * 1024 = 2048.
Proof.
  split; [|repeat split; vm_compute; reflexivity].
  unfold crop_transform_xview2_defaults. rewrite observe_crop_transform_xview2.
  vm_compute. reflexivity.
Qed.

(** C10.  In both crop builders the window depends on the height only:
    there is one window, the same for every width and every store, and
    the width only appears as the output width of the two branches. *)
Theorem crop_window_ignores_width (h : Z) (mn mx : float) (c : Z) :
  exists window : result (Z * Z),
    forall (w : Z) (s : heap),
      observe (crop_transform (h, w) mn mx c) s = crop_tree h w <$> window /\
      observe (crop_transform_xview2 (h, w) mn mx c) s =
        crop_tree_xview2 h w c <$> window /\
      seen_window (observe (crop_transform (h, w) mn mx c) s) =
        (fun win => Some (TTuple [TInt win.1; TInt win.2])) <$> window /\
      seen_window (observe (crop_transform_xview2 (h, w) mn mx c) s) =
        (fun win => Some (TTuple [TInt win.1; TInt win.2])) <$> window.
Proof.
  exists (crop_window h mn mx c). intros w s.
  rewrite observe_crop_transform, observe_crop_transform_xview2.
  now destruct (crop_window h mn mx c) as [[lo hi]|e].
Qed.

Lemma relocatable_invoke (c : builder_call) : relocatable (invoke c).
Proof. destruct c; cbn [invoke]; auto with relocation. Qed.

Lemma observe_preset (m : Py pyval) (s : heap) (t : tree) :
  relocatable m -> observe m [] = Ok (Some t) -> observe m s = observe m [].
Proof.
  intros Hm Ht. rewrite Ht. now apply observe_relocated.
Qed.

Lemma observe_get_augmentations (name : string) (b : bool) (s : heap) :
  observe (get_augmentations name b) s = observe (get_augmentations name b) [].
Proof.
  unfold get_augmentations.
  repeat match goal with |- context [String.eqb name ?k] =>
    destruct (String.eqb name k) end;
  destruct b;
  (eapply observe_preset;
   [ auto with relocation; apply relocatable_py_list; constructor
   | vm_compute; reflexivity ]).
Qed.

(** Every call sees the same from every store. *)
Lemma observe_invoke (c : builder_call) (s : heap) :
  observe (invoke c) s = observe (invoke c) [].
Proof.
  destruct c as [[h w] mn mx i|[h w] mn mx i| |md|b md|b md|md|name b];
    cbn [invoke].
  - now rewrite !observe_crop_transform.
  - now rewrite !observe_crop_transform_xview2.
  - eapply observe_preset; [auto with relocation | vm_compute; reflexivity].
  - eapply observe_preset; [auto with relocation | vm_compute; reflexivity].
  - destruct b;
      (eapply observe_preset; [auto with relocation | vm_compute; reflexivity]).
  - destruct b;
      (eapply observe_preset; [auto with relocation | vm_compute; reflexivity]).
  - eapply observe_preset; [auto with relocation | vm_compute; reflexivity].
  - apply observe_get_augmentations.
Qed.

(** C8.  The five preset builders, [get_augmentations] and the two crop
    builders are deterministic: two calls with the same arguments, from
    whatever stores, return structurally equal results (or raise the
    same exception); and a call leaves every object of the store it runs
    in as it was, only adding new ones, what it returns being one of
    the new ones. *)
Theorem builders_deterministic (c : builder_call) (s1 s2 : heap) :
  observe (invoke c) s1 = observe (invoke c) s2 /\
  (exists news, (invoke c s1).2 = s1 ++ news) /\
  (forall l, (l < length s1)%nat -> load (invoke c s1).2 l = load s1 l) /\
  (forall l, (invoke c s1).1 = Ok (PRef l) -> (length s1 <= l)%nat).
Proof.
  split; [now rewrite (observe_invoke c s1), (observe_invoke c s2)|].
  destruct (store_preserved (invoke c) s1 (relocatable_invoke c)) as [news Hn].
  split; [now exists news|].
  split.
  - intros l Hl. rewrite Hn. unfold load. now apply lookup_app_l.
  - intros l. pose proof (relocatable_invoke c s1 []) as Hr.
    cbn [shift shift_list map] in Hr. rewrite app_nil_r in Hr. rewrite Hr.
    cbn [fst]. destruct (invoke c []).1 as [[z|x|b|k|l0]|e];
      cbn; intros [= <-]; lia.
Qed.

(** * Further properties *)

(** ** The crop window *)

Lemma cond_Zopp_shiftl_le (s : bool) (m : positive) (e c : Z) :
  py_float_lt_int (S754_finite s m e) c = true ->
  cond_Zopp s (Z.shiftl (Zpos m) e) <= c.
Proof.
  unfold py_float_lt_int. destruct e as [|p|p].
  - rewrite Z.shiftl_0_r, Z.pow_0_r, Z.mul_1_r. intros H%Z.ltb_lt.
    destruct s; cbn [cond_Zopp] in *; lia.
  - rewrite Z.shiftl_mul_pow2 by lia. intros H%Z.ltb_lt.
    destruct s; unfold cond_Zopp in *; rewrite ?Z.mul_opp_l in H; lia.
  - change (Z.shiftl (Z.pos m) (Z.neg p)) with (Z.shiftr (Z.pos m) (Z.pos p)).
    rewrite Z.shiftr_div_pow2 by lia. intros H%Z.ltb_lt.
    pose proof (Z.pow_pos_nonneg 2 (Zpos p)) as Hp.
    destruct s; unfold cond_Zopp in *.
    + assert (- c <= Z.pos m / 2 ^ Z.pos p); [|lia].
      apply Z.div_le_lower_bound; lia.
    + assert (Z.pos m / 2 ^ Z.pos p < c); [|lia].
      apply Z.div_lt_upper_bound; lia.
Qed.

(** [int (min (c, x))] is never above [c]. *)
Lemma py_int_min_le (c : Z) (x : float) (hi : Z) :
  py_int (py_min_int_float c x) = Ok hi -> hi <= c.
Proof.
  unfold py_min_int_float.
  destruct (py_float_lt_int x c) eqn:Hlt; cbn [py_int]; [|intros [= <-]; lia].
  destruct x as [s|s| |s m e]; try discriminate; intros [= <-].
  - cbn in Hlt. apply Z.ltb_lt in Hlt. lia.
  - now apply cond_Zopp_shiftl_le.
Qed.

Lemma crop_window_inv (h : Z) (mn mx : float) (c lo hi : Z) :
  crop_window h mn mx c = Ok (lo, hi) ->
  exists pmin pmax,
    py_int_mul_float h mn = Ok pmin /\ py_int (NFloat pmin) = Ok lo /\
    py_int_mul_float h mx = Ok pmax /\
    py_int (py_min_int_float c pmax) = Ok hi.
Proof.
  unfold crop_window.
  destruct (py_int_mul_float h mn) as [pmin|e]; [|discriminate].
  cbn [mbind result_bind].
  destruct (py_int (NFloat pmin)) as [lo'|e] eqn:Elo; [|discriminate].
  destruct (py_int_mul_float h mx) as [pmax|e]; [|discriminate].
  cbn [mbind result_bind].
  destruct (py_int (py_min_int_float c pmax)) as [hi'|e] eqn:Ehi;
    [|discriminate].
  intros [= <- <-]. now exists pmin, pmax.
Qed.

Lemma crop_tree_inj (h w : Z) (win win' : Z * Z) :
  crop_tree h w win = crop_tree h w win' -> win = win'.
Proof. destruct win, win'. now intros [= -> ->]. Qed.

Lemma crop_tree_xview2_inj (h w c : Z) (win win' : Z * Z) :
  crop_tree_xview2 h w c win = crop_tree_xview2 h w c win' -> win = win'.
Proof. destruct win, win'. now intros [= -> ->]. Qed.

(** A crop that was built was built around the window of its
    arguments. *)
Lemma observe_crop_built (h w : Z) (mn mx : float) (c : Z) (s : heap)
    (win : Z * Z) :
  observe (crop_transform (h, w) mn mx c) s = Ok (crop_tree h w win) ->
  crop_window h mn mx c = Ok win.
Proof.
  rewrite observe_crop_transform.
  destruct (crop_window h mn mx c) as [win'|e]; [|discriminate].
  cbn [fmap result_fmap]. intros H. f_equal. apply (crop_tree_inj h w).
  congruence.
Qed.

Lemma observe_crop_xview2_built (h w : Z) (mn mx : float) (c : Z) (s : heap)
    (win : Z * Z) :
  observe (crop_transform_xview2 (h, w) mn mx c) s
  = Ok (crop_tree_xview2 h w c win) ->
  crop_window h mn mx c = Ok win.
Proof.
  rewrite observe_crop_transform_xview2.
  destruct (crop_window h mn mx c) as [win'|e]; [|discriminate].
  cbn [fmap result_fmap]. intros H. f_equal. apply (crop_tree_xview2_inj h w c).
  congruence.
Qed.



Lemma py_int_nonneg (x : float) (z : Z) :
  has_sign false x -> py_int (NFloat x) = Ok z -> 0 <= z.
Proof.
  destruct x as [s|s| |s m e]; cbn [has_sign py_int]; try discriminate;
    try tauto; intros -> [= <-]; [lia|].
  cbn [cond_Zopp]. now apply Z.shiftl_nonneg.
Qed.

(** X2.  For a positive height, positive scales and an [input_size]
    that is not negative, the window of a crop that either builder
    builds has no negative bound. *)
Theorem crop_window_nonnegative (h w : Z) (mn mx : float) (c : Z) (s : heap)
    (lo hi : Z) :
  0 < h -> scale mn = true -> scale mx = true -> 0 <= c ->
  observe (crop_transform (h, w) mn mx c) s = Ok (crop_tree h w (lo, hi)) \/
  observe (crop_transform_xview2 (h, w) mn mx c) s
  = Ok (crop_tree_xview2 h w c (lo, hi)) ->
  0 <= lo /\ 0 <= hi.
Proof.
  intros Hh Hmn Hmx Hc Hb.
  assert (Hw : crop_window h mn mx c = Ok (lo, hi))
    by (destruct Hb as [Hb|Hb];
        eauto using observe_crop_built, observe_crop_xview2_built).
  destruct (crop_window_inv _ _ _ _ _ _ Hw)
    as (pmin & pmax & Hpmin & Hlo & Hpmax & Hhi).
  split.
  - eapply py_int_nonneg; [|exact Hlo]. eauto using py_int_mul_float_sign.
  - unfold py_min_int_float in Hhi.
    destruct (py_float_lt_int pmax c); [|injection Hhi as <-; exact Hc].
    eapply py_int_nonneg; [|exact Hhi]. eauto using py_int_mul_float_sign.
Qed.

Lemma crop_window_nonnegative_witness : 0 <= 750 /\ 0 <= 1250.
Proof.
  apply (crop_window_nonnegative 1000 1000 f0_75 f1_25 5000 [] 750 1250);
    [lia | reflexivity | reflexivity | lia |].
  left. vm_compute. reflexivity.
Defined.

Lemma py_int_mul_float_raise (z : Z) (x : float) (e : exn) :
  py_int_mul_float z x = Raise e -> e = OverflowError.
Proof.
  unfold py_int_mul_float, py_float_of_int.
  destruct (round_int z); cbv [mbind result_bind mret result_ret]; congruence.
Qed.

(** The window of a positive height and positive scales: computed when
    [h * min_scale] is finite, and an OverflowError otherwise. *)
Lemma crop_window_cases (h : Z) (mn mx : float) (c : Z) :
  0 < h -> scale mn = true -> scale mx = true ->
  match py_int_mul_float h mn with
  | Ok pmin =>
      if is_finite pmin then
        exists pmax, py_int_mul_float h mx = Ok pmax /\
          crop_window h mn mx c
          = Ok (Qfloor (to_Q pmin), floor_min c pmax)
      else crop_window h mn mx c = Raise OverflowError
  | Raise _ => crop_window h mn mx c = Raise OverflowError
  end.
Proof.
  intros Hh Hmn Hmx. unfold crop_window.
  destruct (py_int_mul_float h mn) as [pmin|e] eqn:Hpmin.
  - pose proof (py_int_mul_float_sign h mn pmin Hh Hmn Hpmin) as Hs.
    destruct (is_finite pmin) eqn:Hfin.
    + destruct (py_int_mul_float_both h mn mx pmin Hpmin) as [pmax Hpmax].
      exists pmax. split; [exact Hpmax|]. rewrite Hpmax.
      cbn [mbind result_bind]. rewrite (py_int_floor pmin Hs Hfin).
      rewrite (py_int_min_floor c pmax)
        by eauto using py_int_mul_float_sign.
      reflexivity.
    + now destruct pmin.
  - now rewrite (py_int_mul_float_raise _ _ _ Hpmin).
Qed.

(** X3.  For a positive height and positive scales, both crop builders
    raise OverflowError exactly when [h * min_scale] is not a finite
    float, and build a crop around the same window otherwise: neither
    [max_scale] nor [input_size] makes them fail, and they raise nothing
    else. *)
Theorem crop_raises_overflow_only (h w : Z) (mn mx : float) (c : Z)
    (s : heap) :
  0 < h -> scale mn = true -> scale mx = true ->
  (exists pmin win,
     py_int_mul_float h mn = Ok pmin /\ is_finite pmin = true /\
     observe (crop_transform (h, w) mn mx c) s = Ok (crop_tree h w win) /\
     observe (crop_transform_xview2 (h, w) mn mx c) s
     = Ok (crop_tree_xview2 h w c win)) \/
  ((forall pmin, py_int_mul_float h mn = Ok pmin -> is_finite pmin = false) /\
   observe (crop_transform (h, w) mn mx c) s = Raise OverflowError /\
   observe (crop_transform_xview2 (h, w) mn mx c) s = Raise OverflowError).
Proof.
  intros Hh Hmn Hmx.
  pose proof (crop_window_cases h mn mx c Hh Hmn Hmx) as Hw.
  rewrite observe_crop_transform, observe_crop_transform_xview2.
  destruct (py_int_mul_float h mn) as [pmin|e]; [destruct (is_finite pmin) eqn:Hf|].
  - destruct Hw as (pmax & _ & ->). left. now eexists pmin, _.
  - rewrite Hw. right. split; [|now split]. now intros ? [= <-].
  - rewrite Hw. right. split; [|now split]. discriminate.
Qed.

Lemma crop_raises_overflow_only_witness :
  (exists pmin win,
     py_int_mul_float 2 float_max = Ok pmin /\ is_finite pmin = true /\
     observe (crop_transform (2, 2) float_max float_max 5000) []
     = Ok (crop_tree 2 2 win) /\
     observe (crop_transform_xview2 (2, 2) float_max float_max 5000) []
     = Ok (crop_tree_xview2 2 2 5000 win)) \/
  ((forall pmin,
      py_int_mul_float 2 float_max = Ok pmin -> is_finite pmin = false) /\
   observe (crop_transform (2, 2) float_max float_max 5000) []
   = Raise OverflowError /\
   observe (crop_transform_xview2 (2, 2) float_max float_max 5000) []
   = Raise OverflowError).
Proof.
  apply (crop_raises_overflow_only 2 2 float_max float_max 5000 []);
    [lia | reflexivity | reflexivity].
Defined.

(** X4.  Nothing validates the window: for a positive height and
    positive scales with a finite [h * min_scale], an [input_size] below
    [floor (h * min_scale)] still gives a crop, with a window whose
    upper bound is below its lower bound. *)
Theorem crop_window_not_validated (h w : Z) (mn mx : float) (c : Z)
    (s : heap) (pmin : float) :
  0 < h -> scale mn = true -> scale mx = true ->
  py_int_mul_float h mn = Ok pmin -> is_finite pmin = true ->
  c < Qfloor (to_Q pmin) ->
  exists hi,
    observe (crop_transform (h, w) mn mx c) s
    = Ok (crop_tree h w (Qfloor (to_Q pmin), hi)) /\
    observe (crop_transform_xview2 (h, w) mn mx c) s
    = Ok (crop_tree_xview2 h w c (Qfloor (to_Q pmin), hi)) /\
    hi < Qfloor (to_Q pmin).
Proof.
  intros Hh Hmn Hmx Hpmin Hfin Hc.
  pose proof (crop_window_cases h mn mx c Hh Hmn Hmx) as Hw.
  rewrite Hpmin, Hfin in Hw. destruct Hw as (pmax & Hpmax & Hw).
  exists (floor_min c pmax).
  rewrite observe_crop_transform, observe_crop_transform_xview2, Hw.
  split; [reflexivity|]. split; [reflexivity|].
  destruct (crop_window_inv _ _ _ _ _ _ Hw) as (_ & pmax' & _ & _ & Hp' & Hhi).
  apply py_int_min_le in Hhi. lia.
Qed.

Lemma crop_window_not_validated_witness :
  exists hi,
    observe (crop_transform (1000, 1000) f0_75 f1_25 500) []
    = Ok (crop_tree 1000 1000 (750, hi)) /\
    observe (crop_transform_xview2 (1000, 1000) f0_75 f1_25 500) []
    = Ok (crop_tree_xview2 1000 1000 500 (750, hi)) /\
    hi < 750.
Proof.
  apply (crop_window_not_validated 1000 1000 f0_75 f1_25 500 []
           (S754_finite false 6597069766656000 (-43)));
    [lia | reflexivity | reflexivity | reflexivity | reflexivity
    | vm_compute; reflexivity].
Defined.

(** X5.  [crop_transform_xview2] builds what [crop_transform] builds
    from the same arguments, with the second branch put behind a resize
    to twice the input size; it raises what [crop_transform] raises. *)
Theorem crop_xview2_wraps_crop (h w : Z) (mn mx : float) (c : Z)
    (s s' : heap) :
  observe (crop_transform_xview2 (h, w) mn mx c) s
  = resize_before_mask_crop c <$> observe (crop_transform (h, w) mn mx c) s'.
Proof.
  rewrite observe_crop_transform, observe_crop_transform_xview2.
  now destruct (crop_window h mn mx c) as [[lo hi]|e].
Qed.

(** ** Ownership: the objects of a result *)

Lemma concat_map_shifted {X Y} (g : X -> X) (k : Y -> Y)
    (F F' : X -> list Y) (l : list X) :
  (forall x, F (g x) = map k (F' x)) ->
  concat (map F (map g l)) = map k (concat (map F' l)).
Proof.
  intros HF. induction l as [|x l IH]; [reflexivity|].
  cbn. now rewrite HF, IH, map_app.
Qed.

Lemma reach_shifted (fuel : nat) (h s : heap) (v : pyval) :
  reach fuel (h ++ shift (length h) s) (shift (length h) v)
  = map (Nat.add (length h)) (reach fuel s v).
Proof.
  revert v. induction fuel as [|fuel IH]; intros [z|x|b|c|l]; try reflexivity.
  cbn [shift shift_val reach map]. f_equal. rewrite load_shifted.
  destruct (load s l) as [[items|items|c args kwargs]|];
    cbn [fmap option_fmap option_map shift shift_obj]; [| | |reflexivity].
  - change (shift (length h) items) with (map (shift (length h)) items).
    now apply concat_map_shifted.
  - change (shift (length h) items) with (map (shift (length h)) items).
    now apply concat_map_shifted.
  - change (shift (length h) args) with (map (shift (length h)) args).
    change (shift (length h) kwargs) with (map (shift (length h)) kwargs).
    rewrite map_app. f_equal; [now apply concat_map_shifted|].
    apply (concat_map_shifted _ _ _ (fun kw => reach fuel s kw.2)).
    intros [k v]. apply IH.
Qed.

Lemma mapM_Some_Forall {X Y} (f : X -> option Y) (l : list X) (ys : list Y) :
  mapM f l = Some ys -> Forall (fun x => exists y, f x = Some y) l.
Proof.
  revert ys. induction l as [|x l IH]; intros ys; [constructor|].
  cbn. destruct (f x) as [y|] eqn:Hx; [|discriminate]. cbn.
  destruct (mapM f l) as [ys'|]; [|discriminate]. intros _.
  constructor; eauto.
Qed.

Lemma map_ext_Some {X Y Z} (f : X -> option Y) (F G : X -> Z) (l : list X) :
  Forall (fun x => exists y, f x = Some y) l ->
  (forall x y, f x = Some y -> F x = G x) ->
  map F l = map G l.
Proof.
  intros Hl HFG. induction Hl as [|x l [y Hy] _ IH]; [reflexivity|].
  cbn. now rewrite (HFG _ _ Hy), IH.
Qed.

(** A structure that was read is read the same with more fuel and in a
    store that has grown. *)
Lemma reify_stable (fuel fuel' : nat) (s news : heap) (v : pyval) (t : tree) :
  (fuel <= fuel')%nat -> reify fuel s v = Some t ->
  reify fuel' (s ++ news) v = Some t.
Proof.
  revert fuel' v t. induction fuel as [|fuel IH]; intros fuel' v t Hle.
  - destruct v, fuel'; cbn; congruence.
  - destruct fuel' as [|fuel']; [lia|]. destruct v; try (cbn; congruence).
    cbn [reify].
    assert (Hm : forall x y, reify fuel s x = Some y ->
                             reify fuel' (s ++ news) x = Some y)
      by (intros; eapply IH; [lia | eassumption]).
    destruct (load s l) as [o|] eqn:Hl; [|congruence].
    unfold load in *. rewrite (lookup_app_l_Some _ _ _ _ Hl).
    destruct o as [items|items|c args kwargs].
    + destruct (mapM (reify fuel s) items) as [ts|] eqn:E; [|discriminate].
      now rewrite (mapM_mono _ _ _ _ Hm E).
    + destruct (mapM (reify fuel s) items) as [ts|] eqn:E; [|discriminate].
      now rewrite (mapM_mono _ _ _ _ Hm E).
    + destruct (mapM (reify fuel s) args) as [ts|] eqn:E; [|discriminate].
      rewrite (mapM_mono _ _ _ _ Hm E). cbn.
      destruct (mapM _ kwargs) as [ks|] eqn:E'; [|discriminate].
      assert (Hk : forall (kw : string * pyval) y,
                 pair kw.1 <$> reify fuel s kw.2 = Some y ->
                 pair kw.1 <$> reify fuel' (s ++ news) kw.2 = Some y).
      { intros [k x] y. cbn.
        destruct (reify fuel s x) as [y'|] eqn:Ex; [|discriminate].
        now rewrite (Hm _ _ Ex). }
      now rewrite (mapM_mono _ _ _ _ Hk E').
Qed.

(** And the same objects are met. *)
Lemma reach_stable (fuel fuel' : nat) (s news : heap) (v : pyval) (t : tree) :
  (fuel <= fuel')%nat -> reify fuel s v = Some t ->
  reach fuel' (s ++ news) v = reach fuel s v.
Proof.
  revert fuel' v t. induction fuel as [|fuel IH]; intros fuel' v t Hle.
  - destruct v, fuel'; cbn; congruence.
  - destruct fuel' as [|fuel']; [lia|]. destruct v; try reflexivity.
    cbn [reify reach]. intros Ht. f_equal.
    assert (Hm : forall x y, reify fuel s x = Some y ->
                   reach fuel' (s ++ news) x = reach fuel s x)
      by (intros; eapply IH; [lia | eassumption]).
    destruct (load s l) as [o|] eqn:Hl; [|discriminate].
    unfold load in *. rewrite (lookup_app_l_Some _ _ _ _ Hl).
    destruct o as [items|items|c args kwargs].
    + destruct (mapM (reify fuel s) items) as [ts|] eqn:E; [|discriminate].
      f_equal. eapply map_ext_Some; eauto using mapM_Some_Forall.
    + destruct (mapM (reify fuel s) items) as [ts|] eqn:E; [|discriminate].
      f_equal. eapply map_ext_Some; eauto using mapM_Some_Forall.
    + destruct (mapM (reify fuel s) args) as [ts|] eqn:E; [|discriminate].
      cbn in Ht.
      destruct (mapM _ kwargs) as [ks|] eqn:E'; [|discriminate].
      f_equal; f_equal.
      * eapply map_ext_Some; eauto using mapM_Some_Forall.
      * eapply map_ext_Some; [eapply mapM_Some_Forall, E'|].
        intros [k x] y. cbn.
        destruct (reify fuel s x) as [y'|] eqn:Ex; [|discriminate].
        intros _. now apply (Hm _ _ Ex).
Qed.

Lemma owned_crop_transform sz mn mx c : owned (crop_transform sz mn mx c []) = true.
Proof.
  destruct sz as [h w]. unfold crop_transform. cbn [fst snd].
  destruct (x ← py_int_mul_float h mn; py_int (NFloat x)) as [lo|e];
    [destruct (x ← py_int_mul_float h mx; py_int (py_min_int_float c x))
       as [hi|e]|];
    vm_compute; reflexivity.
Qed.

Lemma owned_crop_transform_xview2 sz mn mx c :
  owned (crop_transform_xview2 sz mn mx c []) = true.
Proof.
  destruct sz as [h w]. unfold crop_transform_xview2. cbn [fst snd].
  destruct (x ← py_int_mul_float h mn; py_int (NFloat x)) as [lo|e];
    [destruct (x ← py_int_mul_float h mx; py_int (py_min_int_float c x))
       as [hi|e]|];
    vm_compute; reflexivity.
Qed.

Lemma owned_get_augmentations name b : owned (get_augmentations name b []) = true.
Proof.
  unfold get_augmentations.
  repeat match goal with |- context [String.eqb name ?k] =>
    destruct (String.eqb name k) end;
  destruct b; vm_compute; reflexivity.
Qed.

Lemma owned_invoke (c : builder_call) : owned (invoke c []) = true.
Proof.
  destruct c as [sz mn mx i|sz mn mx i| |md|b md|b md|md|name b];
    cbn [invoke];
    auto using owned_crop_transform, owned_crop_transform_xview2,
      owned_get_augmentations;
    try destruct b; vm_compute; reflexivity.
Qed.

Lemma owned_Ok (v : pyval) (s : heap) :
  owned (Ok v, s) = true ->
  s <> [] /\ (exists t, snapshot s v = Some t) /\ NoDup (reachable s v) /\
  Forall (fun l => (l < length s)%nat) (reachable s v).
Proof.
  unfold owned. rewrite !andb_true_iff. intros [[[Hs Ht] Hn] Hf].
  split; [now destruct s|]. split; [destruct (snapshot s v); eauto; discriminate|].
  apply bool_decide_eq_true in Hn, Hf. now split.
Qed.

Lemma owned_Raise (e : exn) (s : heap) : owned (Raise e, s) = true -> s = [].
Proof. now destruct s. Qed.

(** A call from a store [s] is the call from the empty store, moved
    above [s]. *)
Lemma invoke_relocated (c : builder_call) (s : heap) :
  invoke c s
  = (shift (length s) (invoke c []).1, s ++ shift (length s) (invoke c []).2).
Proof.
  pose proof (relocatable_invoke c s []) as Hr.
  cbn [shift shift_list map] in Hr. now rewrite app_nil_r in Hr.
Qed.

Lemma length_shift (n : nat) (s : heap) : length (shift n s) = length s.
Proof. apply length_map. Qed.

(** What a call returns, in the store it leaves: its structure can be
    read, and the objects met on the way are all new and all
    different. *)
Lemma invoke_owned (c : builder_call) (s : heap) (v : pyval) :
  (invoke c s).1 = Ok v ->
  exists t o news,
    (invoke c s).2 = s ++ o :: news /\
    snapshot (invoke c s).2 v = Some t /\
    NoDup (reachable (invoke c s).2 v) /\
    Forall (fun l => (length s <= l < length (invoke c s).2)%nat)
      (reachable (invoke c s).2 v).
Proof.
  rewrite invoke_relocated. pose proof (owned_invoke c) as Ho.
  destruct (invoke c []) as [[v0|e] s0]; cbn [fst snd]; [|discriminate].
  rewrite shift_Ok. intros [= <-].
  apply owned_Ok in Ho as (Hs & [t Ht] & Hn & Hf).
  assert (Hreach : reachable (s ++ shift (length s) s0) (shift (length s) v0)
                   = map (Nat.add (length s)) (reachable s0 v0)).
  { unfold reachable. rewrite reach_shifted. f_equal.
    pose proof (reach_stable (length s0) (length (s ++ shift (length s) s0))
                  s0 [] v0 t) as Hst.
    rewrite app_nil_r in Hst. apply Hst; [|exact Ht].
    rewrite length_app, length_shift. lia. }
  exists t. destruct s0 as [|o0 s0']; [congruence|].
  exists (shift (length s) o0), (shift (length s) s0').
  split; [reflexivity|]. split; [|split].
  - unfold snapshot in *. eapply reify_mono; [|rewrite reify_shifted; exact Ht].
    rewrite length_app, length_shift. lia.
  - rewrite Hreach.
    assert (Hinj : Inj eq eq (Nat.add (length s))) by (intros a b; lia).
    apply (NoDup_fmap_2 (Nat.add (length s))), Hn.
  - rewrite Hreach, length_app, length_shift.
    apply Forall_map. eapply Forall_impl; [exact Hf|]. cbn. intros l Hl. lia.
Qed.

(** X6.  A call that raises has allocated nothing: the store is the one
    it was called in.  A call that returns has added at least one
    object. *)
Theorem call_store_effect (c : builder_call) (s : heap) :
  match (invoke c s).1 with
  | Raise _ => (invoke c s).2 = s
  | Ok _ => exists o news, (invoke c s).2 = s ++ o :: news
  end.
Proof.
  destruct (invoke c s).1 as [v|e] eqn:Hr.
  - destruct (invoke_owned c s v Hr) as (_ & o & news & Hs & _). eauto.
  - rewrite invoke_relocated in *. pose proof (owned_invoke c) as Ho.
    destruct (invoke c []) as [[v0|e0] s0]; cbn [fst snd] in *; [discriminate|].
    apply owned_Raise in Ho as ->. cbn. apply app_nil_r.
Qed.

(** X7.  What a call returns owns its objects: every object met when
    reading its structure was allocated by the call (none was in the
    store before), and none is met twice (no instance is shared between
    two places of the result). *)
Theorem result_owns_its_objects (c : builder_call) (s : heap) (v : pyval) :
  (invoke c s).1 = Ok v ->
  NoDup (reachable (invoke c s).2 v) /\
  Forall (fun l => (length s <= l < length (invoke c s).2)%nat)
    (reachable (invoke c s).2 v).
Proof.
  intros Hr. destruct (invoke_owned c s v Hr) as (_ & _ & _ & _ & _ & Hn & Hf).
  now split.
Qed.

Lemma result_owns_its_objects_witness :
  NoDup (reachable (invoke (CallMedium false true) [OList []]).2
           (PRef 17%nat)) /\
  Forall (fun l => (1 <= l < 18)%nat)
    (reachable (invoke (CallMedium false true) [OList []]).2 (PRef 17%nat)).
Proof.
  apply (result_owns_its_objects (CallMedium false true) [OList []]
           (PRef 17%nat)).
  vm_compute. reflexivity.
Defined.

(** X8.  Two calls in a row return results that share nothing: the
    second call leaves the structure of the first result as it was, and
    no object of the first result is an object of the second. *)
Theorem results_independent (c1 c2 : builder_call) (s : heap) (v1 v2 : pyval) :
  (invoke c1 s).1 = Ok v1 ->
  (invoke c2 (invoke c1 s).2).1 = Ok v2 ->
  snapshot (invoke c2 (invoke c1 s).2).2 v1 = snapshot (invoke c1 s).2 v1 /\
  forall l,
    In l (reachable (invoke c2 (invoke c1 s).2).2 v1) ->
    ~ In l (reachable (invoke c2 (invoke c1 s).2).2 v2).
Proof.
  intros H1 H2.
  destruct (invoke_owned c1 s v1 H1) as (t1 & _ & _ & _ & Ht1 & _ & Hf1).
  destruct (invoke_owned c2 _ v2 H2) as (_ & o & news & Hs2 & _ & _ & Hf2).
  set (s1 := (invoke c1 s).2) in *. rewrite Hs2 in *.
  assert (Hle : (length s1 <= length (s1 ++ o :: news))%nat)
    by (rewrite length_app; lia).
  split.
  - unfold snapshot in *. rewrite Ht1.
    now apply (reify_stable (length s1)).
  - unfold reachable in *.
    rewrite (reach_stable _ _ s1 (o :: news) v1 t1 Hle Ht1).
    rewrite Forall_forall in Hf1, Hf2. intros l Hl1 Hl2.
    apply list_elem_of_In in Hl1, Hl2.
    specialize (Hf1 l Hl1). specialize (Hf2 l Hl2). lia.
Qed.

Lemma results_independent_witness :
  snapshot (invoke CallSafe (invoke CallSafe []).2).2 (PRef 2%nat)
  = snapshot (invoke CallSafe []).2 (PRef 2%nat) /\
  forall l,
    In l (reachable (invoke CallSafe (invoke CallSafe []).2).2 (PRef 2%nat)) ->
    ~ In l (reachable (invoke CallSafe (invoke CallSafe []).2).2 (PRef 5%nat)).
Proof.
  apply (results_independent CallSafe CallSafe [] (PRef 2%nat) (PRef 5%nat));
    vm_compute; reflexivity.
Defined.

(** ** What the presets contain *)

(** The branch [get_augmentations] takes, by name. *)
Lemma get_augmentations_dispatch (name : string) (b : bool) :
  (name = "hard" /\ get_augmentations name b = hard_augmentations b true) \/
  (name = "medium" /\ get_augmentations name b = medium_augmentations b true) \/
  (name = "light" /\ get_augmentations name b = light_augmentations true) \/
  (name = "safe" /\ get_augmentations name b = safe_augmentations) \/
  (name = "one" /\ get_augmentations name b = one_augmentations true) \/
  (~ In name ["safe"; "light"; "medium"; "hard"; "one"] /\
   get_augmentations name b = py_list []).
Proof.
  destruct (String.eqb_spec name "hard") as [->|H1]; [now left|].
  destruct (String.eqb_spec name "medium") as [->|H2]; [now right; left|].
  destruct (String.eqb_spec name "light") as [->|H3]; [now right; right; left|].
  destruct (String.eqb_spec name "safe") as [->|H4];
    [now right; right; right; left|].
  destruct (String.eqb_spec name "one") as [->|H5];
    [now right; right; right; right; left|].
  do 5 right.
  assert (Hn : ~ In name ["safe"; "light"; "medium"; "hard"; "one"])
    by (cbn; intuition congruence).
  split; [exact Hn | now apply get_augmentations_unknown].
Qed.

Lemma relocatable_empty_list : relocatable (py_list []).
Proof. apply relocatable_py_list. constructor. Qed.

Ltac observed :=
  apply observe_relocated;
  [ auto using relocatable_empty_list with relocation
  | vm_compute; reflexivity ].

(** X9.  Without the channel flag, [get_augmentations] instantiates none
    of CLAHE, FancyPCA, HueSaturationValue, RGBShift and RandomFog for
    any name but "one"; for "one" it instantiates some of them whatever
    the flag. *)
Theorem no_three_channel_class_without_flag (name : string) (b : bool)
    (s : heap) :
  (name <> "one" ->
   exists t,
     observe (get_augmentations name false) s = Ok (Some t) /\
     forallb (fun c => negb (three_channel_only c)) (classes t) = true) /\
  (exists t,
     observe (get_augmentations "one" b) s = Ok (Some t) /\
     existsb three_channel_only (classes t) = true).
Proof.
  split.
  - intros Hone.
    destruct (get_augmentations_dispatch name false)
      as [[-> _]|[[-> _]|[[-> _]|[[-> _]|[[-> _]|[_ ->]]]]]];
      try congruence;
      (eexists; split; [observed | vm_compute; reflexivity]).
  - destruct b; (eexists; split; [observed | vm_compute; reflexivity]).
Qed.

Lemma no_three_channel_class_without_flag_witness :
  exists t,
    observe (get_augmentations "hard" false) [] = Ok (Some t) /\
    forallb (fun c => negb (three_channel_only c)) (classes t) = true.
Proof.
  apply (proj1 (no_three_channel_class_without_flag "hard" false [])).
  discriminate.
Defined.

(** X10.  The safe preset is the two D4 steps; they are the first two
    elements of the hard and one presets and the second and third of
    the light preset, and the medium preset has neither of the two
    classes. *)
Theorem d4_steps_in_presets (b md : bool) (s : heap) :
  seq_items (observe safe_augmentations s) = Some d4_steps /\
  firstn 2 <$> seq_items (observe (hard_augmentations b md) s)
  = Some d4_steps /\
  firstn 2 <$> seq_items (observe (one_augmentations md) s) = Some d4_steps /\
  (fun items => firstn 2 (skipn 1 items))
    <$> seq_items (observe (light_augmentations md) s) = Some d4_steps /\
  (exists t,
     observe (medium_augmentations b md) s = Ok (Some t) /\
     forallb (fun c => match c with
                       | RandomRotate90 | Transpose => false
                       | _ => true
                       end) (classes t) = true).
Proof.
  repeat split; try (destruct b; observe_from_empty; vm_compute; reflexivity).
  destruct b; (eexists; split; [observed | vm_compute; reflexivity]).
Qed.

(** X11.  The channel flag changes two elements of the medium preset
    (the sixth and the seventh) and two of the hard preset (the fourth
    and the seventh), and nothing else. *)
Theorem channel_flag_positions (md : bool) (s : heap) (i : nat) :
  (i <> 5%nat -> i <> 6%nat ->
   seq_item i (observe (medium_augmentations true md) s)
   = seq_item i (observe (medium_augmentations false md) s)) /\
  (i <> 3%nat -> i <> 6%nat ->
   seq_item i (observe (hard_augmentations true md) s)
   = seq_item i (observe (hard_augmentations false md) s)) /\
  (forall j, j = 5%nat \/ j = 6%nat ->
   seq_item j (observe (medium_augmentations true md) s)
   <> seq_item j (observe (medium_augmentations false md) s)) /\
  (forall j, j = 3%nat \/ j = 6%nat ->
   seq_item j (observe (hard_augmentations true md) s)
   <> seq_item j (observe (hard_augmentations false md) s)).
Proof.
  repeat split.
  - intros H5 H6. do 2 observe_from_empty.
    do 7 (destruct i as [|i]; [first [lia | vm_compute; reflexivity]|]).
    reflexivity.
  - intros H3 H6. do 2 observe_from_empty.
    do 7 (destruct i as [|i]; [first [lia | vm_compute; reflexivity]|]).
    reflexivity.
  - intros j [-> | ->]; do 2 observe_from_empty; vm_compute; discriminate.
  - intros j [-> | ->]; do 2 observe_from_empty; vm_compute; discriminate.
Qed.

Lemma channel_flag_positions_witness :
  seq_item 0 (observe (medium_augmentations true true) [])
  = seq_item 0 (observe (medium_augmentations false true) []) /\
  seq_item 0 (observe (hard_augmentations true true) [])
  = seq_item 0 (observe (hard_augmentations false true) []).
Proof.
  pose proof (channel_flag_positions true [] 0) as (Hm & Hh & _).
  split; [apply Hm | apply Hh]; discriminate.
Defined.

(** X12.  Whatever the name and the flag, [get_augmentations] raises
    nothing and returns a list of at most 8 elements, each of them an
    instance of a transform. *)
Theorem get_augmentations_total (name : string) (b : bool) (s : heap) :
  exists items,
    observe (get_augmentations name b) s = Ok (Some (TList items)) /\
    (length items <= 8)%nat /\
    forallb is_instance items = true.
Proof.
  destruct (get_augmentations_dispatch name b)
    as [[_ ->]|[[_ ->]|[[_ ->]|[[_ ->]|[[_ ->]|[_ ->]]]]]];
    try destruct b;
    (eexists; split; [observed | split; [vm_compute; lia | reflexivity]]).
Qed.

Lemma fmul_nan_r (x : float) : fmul x S754_nan = S754_nan.
Proof. now destruct x. Qed.

(** X13.  For a height that converts to a float: a NaN [min_scale]
    makes both crop builders raise ValueError, and a NaN [max_scale] is
    not noticed, the upper bound being [input_size]. *)
Theorem crop_nan_scales (h w : Z) (mn mx : float) (c : Z) (s : heap)
    (zx : float) :
  py_float_of_int h = Ok zx ->
  (observe (crop_transform (h, w) S754_nan mx c) s = Raise ValueError /\
   observe (crop_transform_xview2 (h, w) S754_nan mx c) s = Raise ValueError) /\
  (forall pmin lo,
     py_int_mul_float h mn = Ok pmin -> py_int (NFloat pmin) = Ok lo ->
     observe (crop_transform (h, w) mn S754_nan c) s
     = Ok (crop_tree h w (lo, c)) /\
     observe (crop_transform_xview2 (h, w) mn S754_nan c) s
     = Ok (crop_tree_xview2 h w c (lo, c))).
Proof.
  intros Hzx.
  assert (Hnan : py_int_mul_float h S754_nan = Ok S754_nan)
    by (unfold py_int_mul_float; rewrite Hzx; cbn; now rewrite fmul_nan_r).
  split.
  - rewrite observe_crop_transform, observe_crop_transform_xview2.
    unfold crop_window. now rewrite Hnan.
  - intros pmin lo Hpmin Hlo.
    rewrite observe_crop_transform, observe_crop_transform_xview2.
    unfold crop_window. rewrite Hpmin, Hnan. cbn [mbind result_bind].
    now rewrite Hlo.
Qed.

Lemma crop_nan_scales_witness :
  (observe (crop_transform (1000, 1000) S754_nan f1_25 5000) []
   = Raise ValueError /\
   observe (crop_transform_xview2 (1000, 1000) S754_nan f1_25 5000) []
   = Raise ValueError) /\
  (forall pmin lo,
     py_int_mul_float 1000 f0_75 = Ok pmin -> py_int (NFloat pmin) = Ok lo ->
     observe (crop_transform (1000, 1000) f0_75 S754_nan 5000) []
     = Ok (crop_tree 1000 1000 (lo, 5000)) /\
     observe (crop_transform_xview2 (1000, 1000) f0_75 S754_nan 5000) []
     = Ok (crop_tree_xview2 1000 1000 5000 (lo, 5000))).
Proof.
  apply (crop_nan_scales 1000 1000 f0_75 f1_25 5000 []
           (S754_finite false 8796093022208000 (-43))).
  vm_compute. reflexivity.
Defined.
